(** * velox/common/process/TraceContext.cpp

    A shallow embedding of the per-label execution tracing of Velox:
    the scoped [TraceContext] handle (constructor and destructor), the
    cross-thread aggregation [status] and the report [statusLine].

    Machine integers are integers of [Z] with the conversion to their type
    written out at every arithmetic result; the label maps
    ([folly::F14FastMap<std::string, TraceData>]) are [gmap string TraceData]. *)

From Stdlib Require Import ZArith Lia.
From stdpp Require Import gmap strings list fin_maps pretty.

Local Open Scope Z_scope.

(** ** Machine integers and time *)

Module Int.

(** Conversion to [int32_t] (two's complement). Overflow of a signed
    counter is undefined in C++; it wraps here, and the statements that
    depend on a counter bound it. *)
Definition int32 (z : Z) : Z := (z + 2 ^ 31) mod 2 ^ 32 - 2 ^ 31.

(** Conversion to [uint64_t]. *)
Definition uint64 (z : Z) : Z := z mod 2 ^ 64.

Definition INT32_MAX : Z := 2 ^ 31 - 1.
Definition UINT64_MAX : Z := 2 ^ 64 - 1.

Definition is_int32 (z : Z) : Prop := - 2 ^ 31 <= z <= INT32_MAX.
Definition is_uint64 (z : Z) : Prop := 0 <= z <= UINT64_MAX.

End Int.

Module Clock.

(** A [std::chrono::steady_clock::time_point], as its count of clock ticks
    since the clock's epoch; the clock ticks in nanoseconds. *)
Definition time_point : Type := Z.

Definition ticksPerMs : Z := 1000000.

(** [std::chrono::duration_cast<std::chrono::milliseconds>(d).count()]:
    the quotient truncated towards zero. *)
Definition millis (d : Z) : Z := Z.quot d ticksPerMs.

End Clock.

(** ** The data model *)

(** Modelled from the spec: [struct TraceData] is declared in
    TraceContext.h, which is not among the sources. Its five fields are the
    ones section 3 of the specification lists and TraceContext.cpp reads and
    writes. The two counters are taken as [int32_t] and the two millisecond
    fields as [uint64_t], the type at which the destructor takes [std::max];
    the statements below name the bounds they need. A default-constructed
    value has zero counters and the clock's epoch as [startTime]. *)
Record TraceData : Type := mkTraceData {
  numThreads : Z;
  numEnters : Z;
  totalMs : Z;
  maxMs : Z;
  startTime : Clock.time_point
}.

Definition newTraceData : TraceData :=
  {| numThreads := 0; numEnters := 0; totalMs := 0; maxMs := 0; startTime := 0 |}.

Definition setNumThreads (v : Z) (d : TraceData) : TraceData :=
  {| numThreads := v; numEnters := numEnters d; totalMs := totalMs d;
     maxMs := maxMs d; startTime := startTime d |}.

Definition setNumEnters (v : Z) (d : TraceData) : TraceData :=
  {| numThreads := numThreads d; numEnters := v; totalMs := totalMs d;
     maxMs := maxMs d; startTime := startTime d |}.

Definition setTotalMs (v : Z) (d : TraceData) : TraceData :=
  {| numThreads := numThreads d; numEnters := numEnters d; totalMs := v;
     maxMs := maxMs d; startTime := startTime d |}.

Definition setMaxMs (v : Z) (d : TraceData) : TraceData :=
  {| numThreads := numThreads d; numEnters := numEnters d; totalMs := totalMs d;
     maxMs := v; startTime := startTime d |}.

Definition setStartTime (v : Clock.time_point) (d : TraceData) : TraceData :=
  {| numThreads := numThreads d; numEnters := numEnters d; totalMs := totalMs d;
     maxMs := maxMs d; startTime := v |}.

(** The value a thread keeps in the registry: its private label map. *)
Abbreviation Counts := (gmap string TraceData).

(** The members of a [TraceContext]. *)
Record TraceContext : Type := mkTraceContext {
  label_ : string;
  enterTime_ : Clock.time_point;
  isTemporary_ : bool
}.

(** ** Constructor and destructor *)

(** [TraceContext::TraceContext(label, isTemporary)], run when the steady
    clock reads [now], on the calling thread's map [counts] (the argument
    that [threadLocalTraceData.withValue] hands to the lambda). The call of
    [TraceHistory::push] writes the thread's history ring only, which none
    of the functions of this file reads; it is left out. *)
Definition ctor (label : string) (isTemporary : bool) (now : Clock.time_point)
    (counts : Counts) : TraceContext * Counts :=
  let self := {| label_ := label; enterTime_ := now; isTemporary_ := isTemporary |} in
  (* auto& data = counts[label_]; *)
  let data := default newTraceData (counts !! label_ self) in
  (* ++data.numThreads; *)
  let data := setNumThreads (Int.int32 (numThreads data + 1)) data in
  (* if (data.numThreads == 1) data.startTime = enterTime_; *)
  let data := if numThreads data =? 1
              then setStartTime (enterTime_ self) data else data in
  (* ++data.numEnters; *)
  let data := setNumEnters (Int.int32 (numEnters data + 1)) data in
  (self, <[label_ self := data]> counts).

(** [TraceContext::~TraceContext()], run when the steady clock reads [now].
    [counts.find(label_)] is dereferenced unchecked: without an entry for the
    label the behaviour is undefined, which is [None] here. *)
Definition dtor (self : TraceContext) (now : Clock.time_point)
    (counts : Counts) : option Counts :=
  match counts !! label_ self with
  | None => None
  | Some data =>
      (* --data.numThreads *)
      let data := setNumThreads (Int.int32 (numThreads data - 1)) data in
      if (numThreads data =? 0) && isTemporary_ self
      then Some (delete (label_ self) counts)
      else
        let ms := Clock.millis (now - enterTime_ self) in
        (* data.totalMs += ms; *)
        let data := setTotalMs (Int.uint64 (totalMs data + ms)) data in
        (* data.maxMs = std::max<uint64_t>(data.maxMs, ms); *)
        let data := setMaxMs (Z.max (maxMs data) (Int.uint64 ms)) data in
        Some (<[label_ self := data]> counts)
  end.

(** ** Aggregation *)

(** The body of the inner loop of [status], on the entry [sofar] of the
    result and the entry [v] of a thread's map. *)
Definition mergeData (sofar v : TraceData) : TraceData :=
  let sofar :=
    if numEnters sofar =? 0 then setStartTime (startTime v) sofar
    else if 0 <? numEnters v
         then setStartTime (Z.min (startTime sofar) (startTime v)) sofar
         else sofar in
  let sofar := setNumThreads (Int.int32 (numThreads sofar + numThreads v)) sofar in
  let sofar := setNumEnters (Int.int32 (numEnters sofar + numEnters v)) sofar in
  let sofar := setTotalMs (Int.uint64 (totalMs sofar + totalMs v)) sofar in
  let sofar := setMaxMs (Z.max (maxMs sofar) (maxMs v)) sofar in
  sofar.

(** One iteration of that loop, for the pair [kv] of a thread's map:
    [auto& sofar = total[k]] fetches or creates the entry of the result. *)
Definition mergeEntry (total : Counts) (kv : string * TraceData) : Counts :=
  <[kv.1 := mergeData (default newTraceData (total !! kv.1)) kv.2]> total.

(** The lambda given to [registry->forAllValues]: the loop over one
    thread's map. *)
Definition mergeCounts (total counts : Counts) : Counts :=
  foldl mergeEntry total (map_to_list counts).

(** Modelled from the spec: [ThreadLocalRegistry::forAllValues] is declared
    in ThreadLocalRegistry.h, which is not among the sources; it "invokes
    [fn] against every still-registered [T] in turn". The registry is the
    list of the live per-thread maps. *)
Definition forAllValues {A : Type} (registry : list Counts)
    (fn : A -> Counts -> A) (acc : A) : A :=
  foldl fn acc registry.

(** [TraceContext::status()]. *)
Definition status (registry : list Counts) : Counts :=
  forAllValues registry mergeCounts ∅.

(** ** The report *)

(** [std::endl]: the line feed. *)
Definition endl : string := String (Ascii.ascii_of_nat 10) EmptyString.

(** The body of the loop of [statusLine]: [out] is the text written to the
    stream so far. The quotient [totalMs / numEnters] is taken at
    [uint64_t], the common type of its operands; a zero divisor is undefined
    behaviour, which is [None] here. *)
Definition statusLineEntry (now : Clock.time_point) (out : string)
    (pair : string * TraceData) : option string :=
  if numThreads pair.2 =? 0 then Some out
  else
    let continued := Clock.millis (now - startTime pair.2) in
    if Int.uint64 (numEnters pair.2) =? 0 then None
    else Some (out +:+ pair.1 +:+ "=" +:+ pretty (numThreads pair.2)
                 +:+ " entered " +:+ pretty (numEnters pair.2)
                 +:+ " avg ms "
                 +:+ pretty (totalMs pair.2 / Int.uint64 (numEnters pair.2))
                 +:+ " max ms " +:+ pretty (maxMs pair.2)
                 +:+ " continuous for " +:+ pretty continued +:+ endl).

(** [TraceContext::statusLine()], called when the steady clock reads [now]
    and the registry holds the maps [registry]. *)
Definition statusLine (now : Clock.time_point) (registry : list Counts)
    : option string :=
  let counts := status registry in
  foldl (fun out pair => out ≫= fun o => statusLineEntry now o pair)
        (Some EmptyString) (map_to_list counts).

(** ** A thread and its scopes *)

(** A thread: the reading of the steady clock, the [TraceContext] objects
    that are alive on it (the most recently constructed first), and the
    thread's private map. *)
Record Thread : Type := mkThread {
  clock : Clock.time_point;
  live : list TraceContext;
  counts : Counts
}.

Definition newThread (t0 : Clock.time_point) : Thread :=
  {| clock := t0; live := []; counts := ∅ |}.

(** What a thread does with trace contexts: it constructs one, or destroys
    the [i]-th live one ([i = 0] for strictly nested scopes); [dt] is the
    time that has passed on the steady clock since the thread's previous
    operation. *)
Inductive Op : Type :=
  | Construct (label : string) (isTemporary : bool) (dt : N)
  | Destruct (i : nat) (dt : N).

Definition step (op : Op) (th : Thread) : option Thread :=
  match op with
  | Construct label isTemporary dt =>
      let now := clock th + Z.of_N dt in
      let '(self, counts') := ctor label isTemporary now (counts th) in
      Some {| clock := now; live := self :: live th; counts := counts' |}
  | Destruct i dt =>
      let now := clock th + Z.of_N dt in
      self ← live th !! i;
      counts' ← dtor self now (counts th);
      Some {| clock := now; live := delete i (live th); counts := counts' |}
  end.

Fixpoint run (ops : list Op) (th : Thread) : option Thread :=
  match ops with
  | [] => Some th
  | op :: ops' => step op th ≫= run ops'
  end.

(** Every [Destruct] of the sequence names a context that is alive when it
    runs; [n] contexts are alive at the start. *)
Fixpoint scoped (n : nat) (ops : list Op) : bool :=
  match ops with
  | [] => true
  | Construct _ _ _ :: ops' => scoped (S n) ops'
  | Destruct i _ :: ops' => bool_decide (i < n)%nat && scoped (pred n) ops'
  end.

(** ** Auxiliary definitions of the statements *)

(** The entry the destructor leaves when it does not erase: [elapsed] is
    the length of the activation in milliseconds. *)
Definition finished (d : TraceData) (elapsed : Z) : TraceData :=
  {| numThreads := numThreads d - 1;
     numEnters := numEnters d;
     totalMs := totalMs d + elapsed;
     maxMs := Z.max (maxMs d) elapsed;
     startTime := startTime d |}.

(** The entries that the live per-thread maps hold for a label, in the
    order of the registry. *)
Definition entriesOf (L : string) (registry : list Counts) : list TraceData :=
  omap (fun counts : Counts => counts !! L) registry.

Definition sumOf (f : TraceData -> Z) (ds : list TraceData) : Z :=
  foldr Z.add 0 (f <$> ds).

Definition maxOf (f : TraceData -> Z) (ds : list TraceData) : Z :=
  foldr Z.max 0 (f <$> ds).

(** The entries that count for the start time: those with [numEnters > 0]. *)
Definition entered (ds : list TraceData) : list TraceData :=
  filter (fun d => 0 < numEnters d) ds.

(** What the loop of [status] keeps true of the entry it accumulates. *)
Definition wfAcc (s : TraceData) : Prop :=
  Int.is_int32 (numThreads s) /\ Int.is_int32 (numEnters s) /\
  Int.is_uint64 (totalMs s) /\ 0 <= maxMs s.

(** The number of live contexts of a label. *)
Definition activeCount (L : string) (cs : list TraceContext) : Z :=
  Z.of_nat (length (filter (fun c => label_ c = L) cs)).

(** What holds of a thread that started at clock reading [t0] and has run
    [n] operations since. *)
Record Inv (t0 : Clock.time_point) (n : Z) (th : Thread) : Prop := mkInv {
  inv_active : forall L,
    numThreads (default newTraceData (counts th !! L)) = activeCount L (live th);
  inv_enters : forall L d, counts th !! L = Some d ->
    1 <= numEnters d /\ numThreads d <= numEnters d <= n;
  inv_total : forall L d, counts th !! L = Some d ->
    0 <= totalMs d <= (numEnters d - numThreads d) * Clock.millis (clock th - t0) /\
    Int.is_uint64 (totalMs d) /\ Int.is_uint64 (maxMs d);
  inv_live : forall c, c ∈ live th -> t0 <= enterTime_ c <= clock th;
  inv_clock : t0 <= clock th
}.

(** A per-thread map as a thread holds it between two of its operations. *)
Definition reachable (m : Counts) : Prop :=
  exists t0 ops th,
    Z.of_nat (length ops) <= Int.INT32_MAX /\
    run ops (newThread t0) = Some th /\ counts th = m.

(** The text of the line of the specification for a label and its
    aggregated entry, without the line feed that ends it:
    "<label>=<numThreads> entered <numEnters> avg ms <avg> max ms <maxMs>
    continuous for <elapsedMs>", with [avg = totalMs / numEnters] and
    [elapsedMs] the milliseconds from [startTime] to [now]. *)
Definition specLine (now : Clock.time_point) (label : string) (d : TraceData)
    : string :=
  let avg := totalMs d / numEnters d in
  let elapsedMs := Clock.millis (now - startTime d) in
  label +:+ "=" +:+ pretty (numThreads d) +:+ " entered "
    +:+ pretty (numEnters d) +:+ " avg ms " +:+ pretty avg +:+ " max ms "
    +:+ pretty (maxMs d) +:+ " continuous for " +:+ pretty elapsedMs.

(** The entries of the snapshot that the specification reports: those whose
    aggregated [numThreads] is above 0, in the order of the iteration. *)
Definition reported (registry : list Counts) : list (string * TraceData) :=
  filter (fun kv => 0 < numThreads kv.2) (map_to_list (status registry)).

(** The line feed: the character 10, bit 0 first. *)
Definition lineFeed : Ascii.ascii :=
  Ascii.Ascii false true false true false false false false.

(** The text that consists of the given lines, each one followed by a line
    feed. *)
Definition unlines (lines : list string) : string :=
  foldr (fun line text => line +:+ String lineFeed text) EmptyString lines.

(** The number of line feeds in a text. *)
Fixpoint countLF (s : string) : nat :=
  match s with
  | EmptyString => 0%nat
  | String c s' => ((if Ascii.eqb c lineFeed then 1 else 0) + countLF s')%nat
  end.

(** The calling thread's map while the lambda of the constructor stands
    between its lines 51 and 52: [counts[label_]], [++data.numThreads] and
    the assignment of [startTime] are done, [++data.numEnters] is not.
    [status()] does not synchronise with the constructor, so it can read the
    map as it is then. *)
Definition ctorBeforeEnters (label : string) (now : Clock.time_point)
    (counts : Counts) : Counts :=
  let data := default newTraceData (counts !! label) in
  let data := setNumThreads (Int.int32 (numThreads data + 1)) data in
  let data := if numThreads data =? 1 then setStartTime now data else data in
  <[label := data]> counts.

(** ** Definitions of the further properties *)

(** A thread as it stands between two of its operations. *)
Definition running (th : Thread) : Prop :=
  exists t0 ops,
    Z.of_nat (length ops) <= Int.INT32_MAX /\
    run ops (newThread t0) = Some th.

(** The number of constructions of a label in a sequence of operations. *)
Fixpoint constructions (L : string) (ops : list Op) : Z :=
  match ops with
  | [] => 0
  | Construct l _ _ :: ops' =>
      (if decide (l = L) then 1 else 0) + constructions L ops'
  | Destruct _ _ :: ops' => constructions L ops'
  end.

(** No construction of the label in the sequence is temporary. *)
Definition permanent (L : string) (ops : list Op) : Prop :=
  Forall (fun op => match op with
                    | Construct l true _ => l <> L
                    | _ => True
                    end) ops.

(** Activations of a label one after the other, none temporary: for each
    pair [(dt, d)] the thread waits [dt] ticks, constructs the context, and
    destroys it [d] ticks later. *)
Fixpoint sequential (L : string) (acts : list (N * N)) : list Op :=
  match acts with
  | [] => []
  | a :: acts' => Construct L false a.1 :: Destruct 0 a.2 :: sequential L acts'
  end.

(** The lengths of these activations in milliseconds. *)
Definition durations (acts : list (N * N)) : list Z :=
  (fun a => Clock.millis (Z.of_N a.2)) <$> acts.

(** The number of live contexts of a label on all the threads. *)
Definition liveTotal (L : string) (ths : list Thread) : Z :=
  foldr Z.add 0 ((fun th => activeCount L (live th)) <$> ths).

(** The destructions of the sequence are those of scopes: each destroys
    the context constructed last among the live ones. *)
Definition nested (ops : list Op) : Prop :=
  Forall (fun op => match op with
                    | Destruct i _ => i = 0%nat
                    | _ => True
                    end) ops.

(** The live context of a label that was constructed first. *)
Definition outermost (L : string) (cs : list TraceContext) : option TraceContext :=
  last (filter (fun c => label_ c = L) cs).

(** Every construction of the label in the sequence is temporary. *)
Definition allTemporary (L : string) (ops : list Op) : Prop :=
  Forall (fun op => match op with
                    | Construct l false _ => l <> L
                    | _ => True
                    end) ops.

(** * Properties *)

(** ** Conversions *)

Lemma int32_id z : Int.is_int32 z -> Int.int32 z = z.
Proof.
  unfold Int.is_int32, Int.INT32_MAX, Int.int32. intros H.
  rewrite Z.mod_small; lia.
Qed.

Lemma uint64_id z : Int.is_uint64 z -> Int.uint64 z = z.
Proof.
  unfold Int.is_uint64, Int.UINT64_MAX, Int.uint64. intros H.
  rewrite Z.mod_small; lia.
Qed.

Lemma uint64_range z : Int.is_uint64 (Int.uint64 z).
Proof.
  unfold Int.is_uint64, Int.UINT64_MAX, Int.uint64.
  pose proof (Z.mod_pos_bound z (2 ^ 64)). lia.
Qed.

Lemma uint64_le z : 0 <= z -> Int.uint64 z <= z.
Proof. intros H. unfold Int.uint64. apply Z.mod_le; lia. Qed.

Lemma int32_add_l a b : Int.int32 (Int.int32 a + b) = Int.int32 (a + b).
Proof.
  unfold Int.int32. f_equal.
  replace ((a + 2 ^ 31) mod 2 ^ 32 - 2 ^ 31 + b + 2 ^ 31)
    with ((a + 2 ^ 31) mod 2 ^ 32 + b) by lia.
  rewrite Zplus_mod_idemp_l. f_equal. lia.
Qed.

Lemma uint64_add_l a b : Int.uint64 (Int.uint64 a + b) = Int.uint64 (a + b).
Proof. unfold Int.uint64. apply Zplus_mod_idemp_l. Qed.

Lemma millis_nonneg d : 0 <= d -> 0 <= Clock.millis d.
Proof. intros H. unfold Clock.millis, Clock.ticksPerMs. apply Z.quot_pos; lia. Qed.

Lemma millis_mono d1 d2 : 0 <= d1 <= d2 -> Clock.millis d1 <= Clock.millis d2.
Proof.
  intros H. unfold Clock.millis, Clock.ticksPerMs.
  rewrite !Z.quot_div_nonneg by lia. apply Z.div_le_mono; lia.
Qed.

(** ** Constructor *)

Lemma ctor_self label isTemporary now counts :
  (ctor label isTemporary now counts).1 =
  {| label_ := label; enterTime_ := now; isTemporary_ := isTemporary |}.
Proof. reflexivity. Qed.

Lemma ctor_other label isTemporary now (counts : Counts) l :
  l <> label -> (ctor label isTemporary now counts).2 !! l = counts !! l.
Proof. intros H. unfold ctor; simpl. by rewrite lookup_insert_ne. Qed.

Lemma ctor_lookup (label : string) (isTemporary : bool)
    (now : Clock.time_point) (counts : Counts) (d0 : TraceData) :
  d0 = default newTraceData (counts !! label) ->
  Int.is_int32 (numThreads d0) -> numThreads d0 < Int.INT32_MAX ->
  Int.is_int32 (numEnters d0) -> numEnters d0 < Int.INT32_MAX ->
  (ctor label isTemporary now counts).2 !! label =
    Some {| numThreads := numThreads d0 + 1;
            numEnters := numEnters d0 + 1;
            totalMs := totalMs d0;
            maxMs := maxMs d0;
            startTime := if numThreads d0 =? 0 then now else startTime d0 |}.
Proof.
  intros Hd0 Ht Htmax He Hemax.
  unfold ctor; simpl. rewrite lookup_insert_eq.
  rewrite <- Hd0. f_equal.
  rewrite (int32_id (numThreads d0 + 1))
    by (unfold Int.is_int32, Int.INT32_MAX in *; lia).
  destruct (Z.eqb_spec (numThreads d0 + 1) 1) as [E|E];
    destruct (Z.eqb_spec (numThreads d0) 0) as [E'|E']; try lia;
    unfold setNumEnters, setStartTime, setNumThreads; simpl;
    rewrite int32_id by (unfold Int.is_int32, Int.INT32_MAX in *; lia);
    reflexivity.
Qed.

(** C1. The constructor fetches or creates the entry of the label in the
    calling thread's map, adds one to [numThreads], sets [startTime] to the
    recorded [enterTime_] exactly when [numThreads] goes from 0 to 1, adds
    one to [numEnters] in every case, and leaves [totalMs] and [maxMs] (and
    every other entry of the map) as they were. The counters are below
    [INT32_MAX] before the call. *)
Theorem ctor_entry (label : string) (isTemporary : bool)
    (now : Clock.time_point) (counts : Counts) (d0 : TraceData) :
  d0 = default newTraceData (counts !! label) ->
  Int.is_int32 (numThreads d0) -> numThreads d0 < Int.INT32_MAX ->
  Int.is_int32 (numEnters d0) -> numEnters d0 < Int.INT32_MAX ->
  let self := (ctor label isTemporary now counts).1 in
  let counts' := (ctor label isTemporary now counts).2 in
  enterTime_ self = now /\
  counts' !! label =
    Some {| numThreads := numThreads d0 + 1;
            numEnters := numEnters d0 + 1;
            totalMs := totalMs d0;
            maxMs := maxMs d0;
            startTime := if numThreads d0 =? 0 then enterTime_ self
                         else startTime d0 |} /\
  (forall l, l <> label -> counts' !! l = counts !! l).
Proof.
  intros Hd0 Ht Htmax He Hemax self counts'.
  split; [reflexivity|]. split.
  - by apply ctor_lookup.
  - intros l Hl. by apply ctor_other.
Qed.

Lemma ctor_entry_witness :
  (ctor "scan" false 40 (∅ : Counts)).2 !! "scan" =
  Some {| numThreads := 1; numEnters := 1; totalMs := 0; maxMs := 0;
          startTime := 40 |}.
Proof.
  refine (proj1 (proj2 (ctor_entry "scan" false 40 (∅ : Counts) newTraceData
                          _ _ _ _ _))); vm_compute; try reflexivity;
    try (split; discriminate).
Defined.

(** ** Destructor *)

Lemma dtor_unfold self now (counts : Counts) d :
  counts !! label_ self = Some d ->
  Int.is_int32 (numThreads d - 1) ->
  dtor self now counts =
  Some (if (numThreads d - 1 =? 0) && isTemporary_ self
        then delete (label_ self) counts
        else <[label_ self :=
                 {| numThreads := numThreads d - 1;
                    numEnters := numEnters d;
                    totalMs := Int.uint64 (totalMs d + Clock.millis (now - enterTime_ self));
                    maxMs := Z.max (maxMs d)
                               (Int.uint64 (Clock.millis (now - enterTime_ self)));
                    startTime := startTime d |}]> counts).
Proof.
  intros Hd Hn. unfold dtor. rewrite Hd. simpl. rewrite (int32_id _ Hn).
  destruct ((numThreads d - 1 =? 0) && isTemporary_ self); reflexivity.
Qed.

(** C2. The destructor subtracts one from [numThreads] of the entry of its
    label. When that reaches 0 and the context is temporary the entry is
    erased and the rest of the map is as it was: nothing is added to
    [totalMs] or [maxMs]. In every other case the elapsed milliseconds since
    [enterTime_] are added to [totalMs], [maxMs] becomes the larger of
    [maxMs] and the elapsed time, and [numEnters] and [startTime] stay. The
    clock is monotone and the sums stay within the fields' types. *)
Theorem dtor_entry (self : TraceContext) (now : Clock.time_point)
    (counts : Counts) (d : TraceData) :
  counts !! label_ self = Some d ->
  Int.is_int32 (numThreads d - 1) ->
  enterTime_ self <= now ->
  0 <= totalMs d ->
  totalMs d + Clock.millis (now - enterTime_ self) <= Int.UINT64_MAX ->
  let elapsed := Clock.millis (now - enterTime_ self) in
  dtor self now counts =
  Some (if (numThreads d - 1 =? 0) && isTemporary_ self
        then delete (label_ self) counts
        else <[label_ self := finished d elapsed]> counts).
Proof.
  intros Hd Hn Hmono Htot Hsum elapsed.
  rewrite (dtor_unfold _ _ _ _ Hd Hn).
  destruct ((numThreads d - 1 =? 0) && isTemporary_ self); [reflexivity|].
  pose proof (millis_nonneg (now - enterTime_ self) ltac:(lia)) as Hms.
  fold elapsed in Hms, Hsum |- *.
  rewrite (uint64_id (totalMs d + elapsed))
    by (unfold Int.is_uint64; lia).
  rewrite (uint64_id elapsed) by (unfold Int.is_uint64; lia).
  reflexivity.
Qed.

Lemma dtor_entry_witness :
  dtor {| label_ := "scan"; enterTime_ := 40; isTemporary_ := false |} 7000040
       {[ "scan" := {| numThreads := 1; numEnters := 3; totalMs := 10;
                       maxMs := 6; startTime := 40 |} ]} =
  Some {[ "scan" := {| numThreads := 0; numEnters := 3; totalMs := 17;
                       maxMs := 7; startTime := 40 |} ]}.
Proof.
  rewrite (dtor_entry
             {| label_ := "scan"; enterTime_ := 40; isTemporary_ := false |}
             7000040 _
             {| numThreads := 1; numEnters := 3; totalMs := 10;
                maxMs := 6; startTime := 40 |}).
  - vm_compute. reflexivity.
  - vm_compute. reflexivity.
  - vm_compute. split; discriminate.
  - vm_compute. discriminate.
  - vm_compute. discriminate.
  - vm_compute. discriminate.
Defined.

(** C6. A temporary context that is constructed and then destroyed while no
    other activation of its label is active ([numThreads] of the label is 0
    before, or the label has no entry) leaves the map without an entry for
    the label; every other label is as before, so a map that had no entry
    for the label is restored. *)
Theorem temporary_round_trip (label : string) (t1 t2 : Clock.time_point)
    (counts : Counts) :
  numThreads (default newTraceData (counts !! label)) = 0 ->
  let '(self, counts1) := ctor label true t1 counts in
  exists counts2,
    dtor self t2 counts1 = Some counts2 /\
    counts2 !! label = None /\
    counts2 = delete label counts /\
    (counts !! label = None -> counts2 = counts).
Proof.
  intros H0. unfold ctor, dtor; simpl.
  rewrite lookup_insert_eq. simpl. rewrite H0. simpl.
  exists (delete label counts). rewrite delete_insert_eq.
  repeat split.
  - apply lookup_delete_eq.
  - intros Hn. by apply delete_id.
Qed.

Lemma temporary_round_trip_witness :
  exists counts2,
    dtor {| label_ := "tmp"; enterTime_ := 5; isTemporary_ := true |} 9
         (ctor "tmp" true 5 {[ "scan" := newTraceData ]}).2 = Some counts2 /\
    counts2 !! "tmp" = None /\
    counts2 = delete "tmp" ({[ "scan" := newTraceData ]} : Counts) /\
    (({[ "scan" := newTraceData ]} : Counts) !! "tmp" = None ->
     counts2 = {[ "scan" := newTraceData ]}).
Proof.
  apply (temporary_round_trip "tmp" 5 9 {[ "scan" := newTraceData ]}).
  vm_compute. reflexivity.
Defined.

(** C10. Whether the destructor erases the entry when the active count
    returns to 0 depends on the flag of the context being destroyed only:
    with [numThreads = 1] in the entry, a temporary context erases it and a
    non-temporary one keeps it, whatever the entry holds. So a temporary
    activation of a label whose entry carries [numEnters], [totalMs] and
    [maxMs] of earlier, completed activations erases that entry, history
    included. *)
Theorem erase_decided_by_destroyed_context (label : string)
    (counts : Counts) (d : TraceData) :
  counts !! label = Some d ->
  (forall self now, label_ self = label -> numThreads d = 1 ->
     exists counts', dtor self now counts = Some counts' /\
       (isTemporary_ self = true -> counts' = delete label counts) /\
       (isTemporary_ self = false -> is_Some (counts' !! label))) /\
  (forall t1 t2, numThreads d = 0 ->
     let '(self, counts1) := ctor label true t1 counts in
     exists counts2, dtor self t2 counts1 = Some counts2 /\
                     counts2 !! label = None).
Proof.
  intros Hd. split.
  - intros self now <- H1.
    rewrite (dtor_unfold _ _ _ _ Hd)
      by (rewrite H1; vm_compute; split; discriminate).
    rewrite H1. change (1 - 1 =? 0) with true. simpl.
    eexists; split; [reflexivity|]. split; intros ->.
    + reflexivity.
    + simpl. rewrite lookup_insert_eq. eauto.
  - intros t1 t2 H0. unfold ctor, dtor; simpl.
    rewrite lookup_insert_eq, Hd. simpl. rewrite H0. simpl.
    eexists; split; [reflexivity|]. apply lookup_delete_eq.
Qed.

Lemma erase_decided_by_destroyed_context_witness :
  exists counts2,
    dtor {| label_ := "scan"; enterTime_ := 50; isTemporary_ := true |} 60
      (ctor "scan" true 50
         {[ "scan" := {| numThreads := 0; numEnters := 4; totalMs := 120;
                         maxMs := 70; startTime := 3 |} ]}).2 = Some counts2 /\
    counts2 !! "scan" = None.
Proof.
  refine (proj2 (erase_decided_by_destroyed_context "scan"
          {[ "scan" := {| numThreads := 0; numEnters := 4; totalMs := 120;
                          maxMs := 70; startTime := 3 |} ]}
          {| numThreads := 0; numEnters := 4; totalMs := 120;
             maxMs := 70; startTime := 3 |} _) 50 60 _).
  - vm_compute. reflexivity.
  - reflexivity.
Defined.

(** ** Aggregation *)

Lemma sumOf_cons f d ds : sumOf f (d :: ds) = f d + sumOf f ds.
Proof. reflexivity. Qed.

Lemma maxOf_cons f d ds : maxOf f (d :: ds) = Z.max (f d) (maxOf f ds).
Proof. reflexivity. Qed.

Lemma maxOf_nonneg f ds : 0 <= maxOf f ds.
Proof. induction ds; [done|]. rewrite maxOf_cons. lia. Qed.

Lemma maxOf_upper f ds : Forall (fun e => f e <= maxOf f ds) ds.
Proof.
  induction ds as [|d ds IH]; constructor.
  - rewrite maxOf_cons. lia.
  - eapply Forall_impl; [exact IH|]. intros e He. simpl in He. rewrite maxOf_cons. lia.
Qed.

Lemma maxOf_attained f ds :
  ds <> [] -> Forall (fun e => 0 <= f e) ds ->
  exists e, e ∈ ds /\ maxOf f ds = f e.
Proof.
  induction ds as [|d ds IH]; [done|]. intros _ Hall.
  apply Forall_cons in Hall as [Hd Hall]. rewrite maxOf_cons.
  destruct ds as [|d' ds].
  - exists d. split; [by left|]. unfold maxOf; simpl. lia.
  - destruct (IH ltac:(done) Hall) as (e & He & Hm).
    destruct (Z.max_spec (f d) (maxOf f (d' :: ds))) as [[_ ->]|[_ ->]].
    + exists e. split; [by right|done].
    + exists d. split; [by left|done].
Qed.

Lemma mergeEntry_lookup (total : Counts) kv L :
  mergeEntry total kv !! L =
  if decide (kv.1 = L)
  then Some (mergeData (default newTraceData (total !! L)) kv.2)
  else total !! L.
Proof.
  unfold mergeEntry. case_decide as E.
  - subst L. by rewrite lookup_insert_eq.
  - by rewrite lookup_insert_ne.
Qed.

Lemma foldl_mergeEntry_notin (l : list (string * TraceData)) (total : Counts) L :
  L ∉ l.*1 -> foldl mergeEntry total l !! L = total !! L.
Proof.
  revert total. induction l as [|kv l IH]; intros total Hn; [done|].
  simpl in *. apply not_elem_of_cons in Hn as [Hk Hl].
  rewrite IH by done. rewrite mergeEntry_lookup.
  case_decide; congruence.
Qed.

Lemma foldl_mergeEntry_in (l : list (string * TraceData)) (total : Counts) L d :
  NoDup l.*1 -> (L, d) ∈ l ->
  foldl mergeEntry total l !! L =
  Some (mergeData (default newTraceData (total !! L)) d).
Proof.
  revert total. induction l as [|kv l IH]; intros total Hnd Hin.
  - by apply elem_of_nil in Hin.
  - simpl in *. apply NoDup_cons in Hnd as [Hk Hnd].
    apply elem_of_cons in Hin as [<-|Hin].
    + rewrite foldl_mergeEntry_notin by done.
      rewrite mergeEntry_lookup. simpl. by rewrite decide_True.
    + rewrite IH by done. rewrite mergeEntry_lookup.
      case_decide as E; [|done].
      exfalso. apply Hk. rewrite E.
      apply list_elem_of_fmap. by exists (L, d).
Qed.

Lemma mergeCounts_lookup (total counts : Counts) L :
  mergeCounts total counts !! L =
  match counts !! L with
  | Some d => Some (mergeData (default newTraceData (total !! L)) d)
  | None => total !! L
  end.
Proof.
  unfold mergeCounts. destruct (counts !! L) as [d|] eqn:E.
  - apply foldl_mergeEntry_in.
    + apply NoDup_fst_map_to_list.
    + by apply elem_of_map_to_list.
  - apply foldl_mergeEntry_notin.
    intros ([k d] & Hk & Hin)%list_elem_of_fmap. simpl in Hk. subst k.
    apply elem_of_map_to_list in Hin. congruence.
Qed.

Lemma forAllValues_lookup (registry : list Counts) (total : Counts) L :
  forAllValues registry mergeCounts total !! L =
  match total !! L, entriesOf L registry with
  | None, [] => None
  | o, ds => Some (foldl mergeData (default newTraceData o) ds)
  end.
Proof.
  unfold forAllValues, entriesOf.
  revert total. induction registry as [|m registry IH]; intros total; simpl.
  - by destruct (total !! L).
  - rewrite IH, mergeCounts_lookup.
    destruct (m !! L) as [d|] eqn:E; simpl; [|done].
    by destruct (total !! L).
Qed.

Lemma status_lookup (registry : list Counts) L :
  status registry !! L =
  match entriesOf L registry with
  | [] => None
  | ds => Some (foldl mergeData newTraceData ds)
  end.
Proof.
  unfold status. rewrite forAllValues_lookup, lookup_empty. simpl.
  by destruct (entriesOf L registry).
Qed.

Lemma mergeData_fields (s v : TraceData) :
  numThreads (mergeData s v) = Int.int32 (numThreads s + numThreads v) /\
  numEnters (mergeData s v) = Int.int32 (numEnters s + numEnters v) /\
  totalMs (mergeData s v) = Int.uint64 (totalMs s + totalMs v) /\
  maxMs (mergeData s v) = Z.max (maxMs s) (maxMs v) /\
  startTime (mergeData s v) =
    if numEnters s =? 0 then startTime v
    else if 0 <? numEnters v then Z.min (startTime s) (startTime v)
         else startTime s.
Proof.
  unfold mergeData.
  destruct (numEnters s =? 0); [|destruct (0 <? numEnters v)]; simpl; done.
Qed.

Lemma int32_range z : Int.is_int32 (Int.int32 z).
Proof.
  unfold Int.is_int32, Int.INT32_MAX, Int.int32.
  pose proof (Z.mod_pos_bound (z + 2 ^ 31) (2 ^ 32)). lia.
Qed.

Lemma wfAcc_new : wfAcc newTraceData.
Proof. vm_compute. repeat split; discriminate. Qed.

Lemma wfAcc_mergeData s v : wfAcc s -> wfAcc (mergeData s v).
Proof.
  intros (Ht & He & Htot & Hmax).
  destruct (mergeData_fields s v) as (E1 & E2 & E3 & E4 & _).
  unfold wfAcc. rewrite E1, E2, E3, E4.
  repeat split; try apply int32_range; try apply uint64_range; lia.
Qed.

Lemma foldl_mergeData_sums (ds : list TraceData) (s : TraceData) :
  wfAcc s ->
  let r := foldl mergeData s ds in
  numThreads r = Int.int32 (numThreads s + sumOf numThreads ds) /\
  numEnters r = Int.int32 (numEnters s + sumOf numEnters ds) /\
  totalMs r = Int.uint64 (totalMs s + sumOf totalMs ds) /\
  maxMs r = Z.max (maxMs s) (maxOf maxMs ds).
Proof.
  revert s. induction ds as [|v ds IH]; intros s Hwf; simpl.
  - destruct Hwf as (Ht & He & Htot & Hmax).
    unfold sumOf, maxOf; simpl. rewrite !Z.add_0_r.
    rewrite !int32_id, uint64_id by done.
    repeat split; lia.
  - destruct (mergeData_fields s v) as (E1 & E2 & E3 & E4 & _).
    destruct (IH _ (wfAcc_mergeData s v Hwf)) as (I1 & I2 & I3 & I4).
    rewrite I1, I2, I3, I4, E1, E2, E3, E4.
    rewrite !int32_add_l, uint64_add_l, !sumOf_cons, maxOf_cons.
    repeat split; try (f_equal; lia). lia.
Qed.

(** C3. For a label that some live per-thread map holds, the entry of
    [status()] has [numThreads], [numEnters] and [totalMs] equal to the sums
    of these fields over the per-thread entries of the label, and [maxMs]
    equal to the largest per-thread [maxMs], as long as the sums are values
    of the fields' types. In particular, with two threads whose entries for
    the label count [eA] and [eB] enters, [status()] reports exactly
    [eA + eB]. A label that no live map holds has no entry. *)
Theorem status_sums (registry : list Counts) (L : string) :
  let entries := entriesOf L registry in
  (entries = [] -> status registry !! L = None) /\
  (entries <> [] ->
   Int.is_int32 (sumOf numThreads entries) ->
   Int.is_int32 (sumOf numEnters entries) ->
   Int.is_uint64 (sumOf totalMs entries) ->
   Forall (fun d => 0 <= maxMs d) entries ->
   exists d, status registry !! L = Some d /\
     numThreads d = sumOf numThreads entries /\
     numEnters d = sumOf numEnters entries /\
     totalMs d = sumOf totalMs entries /\
     maxMs d = maxOf maxMs entries /\
     Forall (fun e => maxMs e <= maxMs d) entries /\
     (exists e, e ∈ entries /\ maxMs d = maxMs e) /\
     (forall (mA mB : Counts) dA dB,
        registry = [mA; mB] -> mA !! L = Some dA -> mB !! L = Some dB ->
        numEnters d = numEnters dA + numEnters dB)).
Proof.
  intros entries. split.
  - intros E. rewrite status_lookup. fold entries. by rewrite E.
  - intros Hne Ht He Htot Hmax.
    exists (foldl mergeData newTraceData entries). split.
    { rewrite status_lookup. fold entries. by destruct entries. }
    destruct (foldl_mergeData_sums entries newTraceData wfAcc_new)
      as (E1 & E2 & E3 & E4). simpl in *.
    rewrite int32_id in E1, E2 by done. rewrite uint64_id in E3 by done.
    pose proof (maxOf_nonneg maxMs entries) as Hm0.
    rewrite Z.max_r in E4 by done.
    split; [done|]. split; [done|]. split; [done|]. split; [done|].
    split; [|split].
    + rewrite E4. apply maxOf_upper.
    + rewrite E4. by apply maxOf_attained.
    + intros mA mB dA dB -> HA HB. rewrite E2.
      subst entries. unfold entriesOf; simpl. rewrite HA, HB; simpl.
      rewrite !sumOf_cons. unfold sumOf; simpl. lia.
Qed.

Lemma status_sums_witness :
  exists d,
    status [ {[ "L" := {| numThreads := 1; numEnters := 3; totalMs := 20;
                          maxMs := 9; startTime := 5 |} ]};
             {[ "L" := {| numThreads := 0; numEnters := 4; totalMs := 11;
                          maxMs := 6; startTime := 2 |} ]} ] !! "L" = Some d /\
    numThreads d = 1 /\ numEnters d = 7 /\ totalMs d = 31 /\ maxMs d = 9.
Proof.
  destruct (proj2 (status_sums
    [ {[ "L" := {| numThreads := 1; numEnters := 3; totalMs := 20;
                   maxMs := 9; startTime := 5 |} ]};
      {[ "L" := {| numThreads := 0; numEnters := 4; totalMs := 11;
                   maxMs := 6; startTime := 2 |} ]} ] "L"))
    as (d & Hd & H1 & H2 & H3 & H4 & _).
  - vm_compute. discriminate.
  - vm_compute. split; discriminate.
  - vm_compute. split; discriminate.
  - vm_compute. split; discriminate.
  - vm_compute. repeat constructor; discriminate.
  - exists d. repeat split; assumption.
Defined.

(** *** The start time of the aggregate *)

Lemma foldl_min_le t ts : foldl Z.min t ts <= t.
Proof.
  revert t. induction ts as [|x ts IH]; intros t; simpl; [lia|].
  specialize (IH (Z.min t x)). lia.
Qed.

Lemma foldl_min_lower t ts : Forall (fun x => foldl Z.min t ts <= x) (t :: ts).
Proof.
  revert t. induction ts as [|x ts IH]; intros t; simpl.
  - repeat constructor. lia.
  - specialize (IH (Z.min t x)). apply Forall_cons in IH as [Hm Hts].
    repeat constructor; try lia; try done.
Qed.

Lemma foldl_min_elem t ts : foldl Z.min t ts ∈ t :: ts.
Proof.
  revert t. induction ts as [|x ts IH]; intros t; simpl; [by left|].
  specialize (IH (Z.min t x)). apply elem_of_cons in IH as [E|Hin].
  - rewrite E. destruct (Z.min_spec t x) as [[_ ->]|[_ ->]].
    + by left.
    + right. by left.
  - right. by right.
Qed.

Lemma entered_cons v ds :
  entered (v :: ds) = if decide (0 < numEnters v) then v :: entered ds
                      else entered ds.
Proof. unfold entered. by rewrite filter_cons. Qed.

Lemma foldl_mergeData_start_pos (ds : list TraceData) (s : TraceData) :
  wfAcc s -> 0 < numEnters s ->
  Forall (fun d => 0 <= numEnters d) ds ->
  numEnters s + sumOf numEnters ds <= Int.INT32_MAX ->
  startTime (foldl mergeData s ds) =
  foldl Z.min (startTime s) (startTime <$> entered ds).
Proof.
  revert s. induction ds as [|v ds IH]; intros s Hwf Hs Hall Hsum; [done|].
  apply Forall_cons in Hall as [Hv Hall]. rewrite sumOf_cons in Hsum.
  assert (0 <= sumOf numEnters ds) as Hnn.
  { clear -Hall. induction Hall; [done|]. rewrite sumOf_cons. lia. }
  destruct (mergeData_fields s v) as (_ & E2 & _ & _ & E5).
  rewrite int32_id in E2
    by (unfold Int.is_int32, Int.INT32_MAX in *; lia).
  simpl. rewrite IH; [|by apply wfAcc_mergeData|lia|done|lia].
  rewrite E5, entered_cons.
  destruct (Z.eqb_spec (numEnters s) 0); [lia|].
  destruct (Z.ltb_spec 0 (numEnters v)); case_decide; try lia; done.
Qed.

Lemma foldl_mergeData_start_zero (ds : list TraceData) (s p : TraceData) ps :
  wfAcc s -> numEnters s = 0 ->
  Forall (fun d => 0 <= numEnters d) ds ->
  sumOf numEnters ds <= Int.INT32_MAX ->
  entered ds = p :: ps ->
  startTime (foldl mergeData s ds) =
  foldl Z.min (startTime p) (startTime <$> ps).
Proof.
  revert s. induction ds as [|v ds IH]; intros s Hwf Hs Hall Hsum Hent; [done|].
  apply Forall_cons in Hall as [Hv Hall]. rewrite sumOf_cons in Hsum.
  assert (0 <= sumOf numEnters ds) as Hnn.
  { clear -Hall. induction Hall; [done|]. rewrite sumOf_cons. lia. }
  destruct (mergeData_fields s v) as (_ & E2 & _ & _ & E5).
  rewrite Hs in E2, E5. rewrite Z.add_0_l in E2.
  change (0 =? 0) with true in E5. cbv iota in E5.
  rewrite int32_id in E2
    by (unfold Int.is_int32, Int.INT32_MAX in *; lia).
  rewrite entered_cons in Hent. simpl. case_decide as Hpos.
  - injection Hent as <- <-.
    rewrite foldl_mergeData_start_pos;
      [by rewrite E5|by apply wfAcc_mergeData|lia|done|lia].
  - apply IH; [by apply wfAcc_mergeData|lia|done|lia|done].
Qed.

Lemma aggregate_start_min (registry : list Counts) (L : string) :
  let entries := entriesOf L registry in
  Forall (fun d => 0 <= numEnters d) entries ->
  sumOf numEnters entries <= Int.INT32_MAX ->
  entered entries <> [] ->
  exists d, status registry !! L = Some d /\
    (exists e, e ∈ entered entries /\ startTime d = startTime e) /\
    Forall (fun e => startTime d <= startTime e) (entered entries).
Proof.
  intros entries Hall Hsum Hent.
  exists (foldl mergeData newTraceData entries). split.
  { rewrite status_lookup. fold entries.
    destruct entries; [|done]. by destruct Hent. }
  destruct (entered entries) as [|p ps] eqn:E; [done|].
  rewrite (foldl_mergeData_start_zero entries newTraceData p ps wfAcc_new
             eq_refl Hall Hsum E).
  split.
  - pose proof (foldl_min_elem (startTime p) (startTime <$> ps)) as Hin.
    change (startTime p :: (startTime <$> ps)) with (startTime <$> p :: ps) in Hin.
    apply list_elem_of_fmap in Hin as (e & He & Hin). eauto.
  - pose proof (foldl_min_lower (startTime p) (startTime <$> ps)) as Hlow.
    change (startTime p :: (startTime <$> ps)) with (startTime <$> p :: ps) in Hlow.
    rewrite Forall_fmap in Hlow. exact Hlow.
Qed.



(** ** The invariant of a thread *)

Lemma activeCount_nonneg L cs : 0 <= activeCount L cs.
Proof. unfold activeCount. lia. Qed.

Lemma activeCount_cons L c cs :
  activeCount L (c :: cs) =
  (if decide (label_ c = L) then 1 else 0) + activeCount L cs.
Proof.
  unfold activeCount. rewrite filter_cons.
  case_decide; simpl; lia.
Qed.

Lemma activeCount_delete L cs (i : nat) c :
  cs !! i = Some c ->
  activeCount L (delete i cs) =
  activeCount L cs - (if decide (label_ c = L) then 1 else 0).
Proof.
  revert i. induction cs as [|c' cs IH]; intros [|i] Hi; simpl in *; try done.
  - injection Hi as ->. rewrite activeCount_cons. lia.
  - rewrite !activeCount_cons, (IH _ Hi). lia.
Qed.

Lemma activeCount_elem L cs c :
  c ∈ cs -> label_ c = L -> 1 <= activeCount L cs.
Proof.
  intros Hin HL. induction Hin as [c cs|c c' cs Hin IH];
    rewrite activeCount_cons.
  - rewrite decide_True by done. pose proof (activeCount_nonneg L cs). lia.
  - specialize (IH HL). case_decide; lia.
Qed.

Lemma Inv_new t0 : Inv t0 0 (newThread t0).
Proof.
  split; simpl; try done; try lia.
  intros c Hc. by apply elem_of_nil in Hc.
Qed.

Lemma Inv_present t0 n th c :
  Inv t0 n th -> c ∈ live th ->
  exists d, counts th !! label_ c = Some d /\ 1 <= numThreads d.
Proof.
  intros HI Hc.
  pose proof (inv_active _ _ _ HI (label_ c)) as Ha.
  pose proof (activeCount_elem (label_ c) _ _ Hc eq_refl) as H1.
  destruct (counts th !! label_ c) as [d|]; simpl in Ha.
  - exists d. split; [done|lia].
  - lia.
Qed.

Lemma Inv_default t0 n th L :
  Inv t0 n th -> 0 <= n ->
  let d0 := default newTraceData (counts th !! L) in
  numThreads d0 = activeCount L (live th) /\
  0 <= numThreads d0 <= numEnters d0 /\ numEnters d0 <= n /\
  0 <= totalMs d0 <= (numEnters d0 - numThreads d0) * Clock.millis (clock th - t0) /\
  Int.is_uint64 (totalMs d0) /\ Int.is_uint64 (maxMs d0).
Proof.
  intros HI Hn d0.
  pose proof (inv_active _ _ _ HI L) as Ha. fold d0 in Ha.
  pose proof (activeCount_nonneg L (live th)) as Hk.
  split; [done|]. subst d0.
  destruct (counts th !! L) as [d|] eqn:E; simpl in *.
  - pose proof (inv_enters _ _ _ HI L d E).
    pose proof (inv_total _ _ _ HI L d E). intuition lia.
  - unfold Int.is_uint64, Int.UINT64_MAX. lia.
Qed.

Lemma millis_clock_mono t0 t t' :
  t0 <= t <= t' -> 0 <= Clock.millis (t - t0) <= Clock.millis (t' - t0).
Proof.
  intros H. split.
  - apply millis_nonneg. lia.
  - apply millis_mono. lia.
Qed.

Lemma Inv_ctor t0 n th label isTemporary (dt : N) :
  Inv t0 n th -> 0 <= n < Int.INT32_MAX ->
  Inv t0 (n + 1)
    {| clock := clock th + Z.of_N dt;
       live := (ctor label isTemporary (clock th + Z.of_N dt) (counts th)).1
               :: live th;
       counts := (ctor label isTemporary (clock th + Z.of_N dt) (counts th)).2 |}.
Proof.
  intros HI Hn.
  pose proof (inv_clock _ _ _ HI) as Hclk.
  pose proof (millis_clock_mono t0 (clock th) (clock th + Z.of_N dt)
                ltac:(lia)) as HM.
  destruct (Inv_default t0 n th label HI ltac:(lia))
    as (Ha & Hte & Hen & Htot & Hu1 & Hu2).
  set (d0 := default newTraceData (counts th !! label)) in *.
  assert ((ctor label isTemporary (clock th + Z.of_N dt) (counts th)).2 !! label
          = Some {| numThreads := numThreads d0 + 1;
                    numEnters := numEnters d0 + 1;
                    totalMs := totalMs d0; maxMs := maxMs d0;
                    startTime := if numThreads d0 =? 0
                                 then clock th + Z.of_N dt
                                 else startTime d0 |}) as Hnew.
  { apply ctor_lookup; try done;
      unfold Int.is_int32, Int.INT32_MAX in *; lia. }
  split; cbn [clock live counts].
  - intros L. rewrite activeCount_cons. rewrite ctor_self; cbn [label_].
    case_decide as E.
    + subst L. rewrite Hnew. simpl. lia.
    + rewrite ctor_other by done. rewrite (inv_active _ _ _ HI L). lia.
  - intros L d Hd. destruct (decide (L = label)) as [->|E].
    + rewrite Hnew in Hd. injection Hd as <-. simpl. lia.
    + rewrite ctor_other in Hd by done.
      pose proof (inv_enters _ _ _ HI L d Hd). lia.
  - intros L d Hd. destruct (decide (L = label)) as [->|E].
    + rewrite Hnew in Hd. injection Hd as <-. simpl.
      split; [|done]. nia.
    + rewrite ctor_other in Hd by done.
      pose proof (inv_enters _ _ _ HI L d Hd).
      pose proof (inv_total _ _ _ HI L d Hd) as (? & ? & ?).
      split; [|done]. nia.
  - intros c [->|Hc]%elem_of_cons.
    + rewrite ctor_self; simpl. lia.
    + pose proof (inv_live _ _ _ HI c Hc). lia.
  - lia.
Qed.

Lemma Inv_dtor t0 n th (i : nat) (dt : N) self :
  Inv t0 n th -> 0 <= n < Int.INT32_MAX ->
  live th !! i = Some self ->
  exists counts',
    dtor self (clock th + Z.of_N dt) (counts th) = Some counts' /\
    Inv t0 (n + 1)
      {| clock := clock th + Z.of_N dt;
         live := delete i (live th);
         counts := counts' |}.
Proof.
  intros HI Hn Hi.
  assert (self ∈ live th) as Hin by (by eapply list_elem_of_lookup_2).
  destruct (Inv_present _ _ _ _ HI Hin) as (d & Hd & Hd1).
  pose proof (inv_enters _ _ _ HI _ d Hd) as He.
  pose proof (inv_total _ _ _ HI _ d Hd) as (Htot & Hu1 & Hu2).
  pose proof (inv_active _ _ _ HI (label_ self)) as Hact.
  rewrite Hd in Hact; simpl in Hact.
  pose proof (inv_live _ _ _ HI self Hin) as Hlive.
  pose proof (millis_clock_mono t0 (clock th) (clock th + Z.of_N dt)
                ltac:(lia)) as HM.
  set (now := clock th + Z.of_N dt) in *.
  assert (0 <= Clock.millis (now - enterTime_ self)
            <= Clock.millis (now - t0)) as Hms.
  { split; [apply millis_nonneg|apply millis_mono]; lia. }
  set (ms := Clock.millis (now - enterTime_ self)) in *.
  rewrite (dtor_unfold _ _ _ _ Hd)
    by (unfold Int.is_int32, Int.INT32_MAX in *; lia).
  fold ms. eexists; split; [reflexivity|].
  destruct ((numThreads d - 1 =? 0) && isTemporary_ self) eqn:Hb.
  - apply andb_true_iff in Hb as [H1%Z.eqb_eq _].
    split; cbn [clock live counts].
    + intros L. rewrite (activeCount_delete L _ _ _ Hi).
      case_decide as E.
      * subst L. rewrite lookup_delete_eq. simpl. lia.
      * rewrite lookup_delete_ne by done.
        rewrite (inv_active _ _ _ HI L). lia.
    + intros L d' [HL Hd']%lookup_delete_Some.
      pose proof (inv_enters _ _ _ HI L d' Hd'). lia.
    + intros L d' [HL Hd']%lookup_delete_Some.
      pose proof (inv_enters _ _ _ HI L d' Hd').
      pose proof (inv_total _ _ _ HI L d' Hd') as (? & ? & ?).
      split; [|done]. nia.
    + intros c Hc%list_subseteq_delete.
      pose proof (inv_live _ _ _ HI c Hc). lia.
    + lia.
  - split; cbn [clock live counts].
    + intros L. rewrite (activeCount_delete L _ _ _ Hi).
      case_decide as E.
      * subst L. rewrite lookup_insert_eq. simpl. lia.
      * rewrite lookup_insert_ne by done.
        rewrite (inv_active _ _ _ HI L). lia.
    + intros L d'. destruct (decide (L = label_ self)) as [->|E].
      * rewrite lookup_insert_eq. intros [= <-]. simpl. lia.
      * rewrite lookup_insert_ne by done. intros Hd'.
        pose proof (inv_enters _ _ _ HI L d' Hd'). lia.
    + intros L d'. destruct (decide (L = label_ self)) as [->|E].
      * rewrite lookup_insert_eq. intros [= <-]. simpl.
        pose proof (uint64_le (totalMs d + ms) ltac:(lia)).
        pose proof (uint64_range (totalMs d + ms)) as Hr.
        pose proof (uint64_range ms) as Hr'.
        split; [|split; [done|]].
        -- unfold Int.is_uint64 in Hr. nia.
        -- unfold Int.is_uint64 in *. lia.
      * rewrite lookup_insert_ne by done. intros Hd'.
        pose proof (inv_enters _ _ _ HI L d' Hd').
        pose proof (inv_total _ _ _ HI L d' Hd') as (? & ? & ?).
        split; [|done]. nia.
    + intros c Hc%list_subseteq_delete.
      pose proof (inv_live _ _ _ HI c Hc). lia.
    + lia.
Qed.

Lemma Inv_step t0 n th op th' :
  Inv t0 n th -> 0 <= n < Int.INT32_MAX ->
  step op th = Some th' -> Inv t0 (n + 1) th'.
Proof.
  intros HI Hn Hstep. destruct op as [label isTemporary dt|i dt]; simpl in Hstep.
  - injection Hstep as <-. by apply Inv_ctor.
  - destruct (live th !! i) as [self|] eqn:Hi; [|done]. simpl in Hstep.
    destruct (Inv_dtor t0 n th i dt self HI Hn Hi) as (counts' & Hc & HI').
    rewrite Hc in Hstep. simpl in Hstep. by injection Hstep as <-.
Qed.

Lemma Inv_run t0 ops : forall n th th',
  Inv t0 n th -> 0 <= n -> n + Z.of_nat (length ops) <= Int.INT32_MAX ->
  run ops th = Some th' -> Inv t0 (n + Z.of_nat (length ops)) th'.
Proof.
  induction ops as [|op ops IH]; intros n th th' HI Hn Hlen Hrun;
    simpl in Hrun.
  - injection Hrun as <-. simpl. by rewrite Z.add_0_r.
  - simpl length in *.
    destruct (step op th) as [th1|] eqn:Hs; [|done]. simpl in Hrun.
    replace (n + Z.of_nat (S (length ops)))
      with ((n + 1) + Z.of_nat (length ops)) by lia.
    apply (IH (n + 1) th1); try lia; [|done].
    eapply Inv_step; [done| |done]. lia.
Qed.

(** A sequence of operations whose destructions name live contexts runs to
    the end: the destructor always finds the entry of its label. *)
Lemma run_scoped t0 ops : forall n th,
  Inv t0 n th -> 0 <= n -> n + Z.of_nat (length ops) <= Int.INT32_MAX ->
  scoped (length (live th)) ops = true ->
  exists th', run ops th = Some th'.
Proof.
  induction ops as [|op ops IH]; intros n th HI Hn Hlen Hsc; simpl.
  - eauto.
  - simpl length in *. destruct op as [label isTemporary dt|i dt]; simpl in *.
    + apply (IH (n + 1)); try lia; [|done].
      apply (Inv_step t0 n th (Construct label isTemporary dt)); [done|lia|done].
    + apply andb_true_iff in Hsc as [Hi%bool_decide_eq_true Hsc].
      destruct (lookup_lt_is_Some_2 (live th) i Hi) as [self Hself].
      rewrite Hself. simpl.
      destruct (Inv_dtor t0 n th i dt self HI ltac:(lia) Hself)
        as (counts' & Hc & HI').
      rewrite Hc. simpl.
      apply (IH (n + 1)); try lia; [done|].
      cbn [live]. rewrite length_delete by eauto.
      replace (length (live th) - 1)%nat with (pred (length (live th))) by lia.
      done.
Qed.

Lemma step_Construct label isTemporary dt th :
  step (Construct label isTemporary dt) th =
  Some {| clock := clock th + Z.of_N dt;
          live := (ctor label isTemporary (clock th + Z.of_N dt) (counts th)).1
                  :: live th;
          counts := (ctor label isTemporary (clock th + Z.of_N dt) (counts th)).2 |}.
Proof. reflexivity. Qed.

Lemma step_monotone t0 n th op th' :
  Inv t0 n th -> 0 <= n < Int.INT32_MAX ->
  step op th = Some th' ->
  n * Clock.millis (clock th' - t0) <= Int.UINT64_MAX ->
  forall L d d', counts th !! L = Some d -> counts th' !! L = Some d' ->
    totalMs d <= totalMs d' /\ maxMs d <= maxMs d'.
Proof.
  intros HI Hn Hstep Hfit L d d' Hd Hd'.
  destruct op as [label isTemporary dt|i dt];
    [rewrite step_Construct in Hstep|simpl in Hstep].
  - apply (inj Some) in Hstep. subst th'. cbn [counts clock] in *.
    destruct (decide (L = label)) as [->|E].
    + destruct (Inv_default t0 n th label HI ltac:(lia))
        as (_ & Hte & Hen & _).
      rewrite Hd in Hte, Hen. simpl in Hte, Hen.
      rewrite (ctor_lookup label isTemporary _ _ d) in Hd';
        [|by rewrite Hd|unfold Int.is_int32, Int.INT32_MAX in *; lia..].
      injection Hd' as <-. simpl. lia.
    + rewrite ctor_other in Hd' by done.
      rewrite Hd in Hd'. injection Hd' as <-. lia.
  - destruct (live th !! i) as [self|] eqn:Hi; [|done]. simpl in Hstep.
    destruct (dtor self (clock th + Z.of_N dt) (counts th)) as [counts'|] eqn:Hc;
      [|done].
    simpl in Hstep. injection Hstep as <-. cbn [counts clock] in *.
    assert (self ∈ live th) as Hin by (by eapply list_elem_of_lookup_2).
    destruct (Inv_present _ _ _ _ HI Hin) as (e & He & He1).
    pose proof (inv_enters _ _ _ HI _ e He) as Hen.
    pose proof (inv_total _ _ _ HI _ e He) as (Htot & Hu1 & Hu2).
    pose proof (inv_live _ _ _ HI self Hin) as Hlive.
    pose proof (millis_clock_mono t0 (clock th) (clock th + Z.of_N dt)
                  ltac:(lia)) as HM.
    set (now := clock th + Z.of_N dt) in *.
    assert (0 <= Clock.millis (now - enterTime_ self)
              <= Clock.millis (now - t0)) as Hms.
    { split; [apply millis_nonneg|apply millis_mono]; lia. }
    set (ms := Clock.millis (now - enterTime_ self)) in *.
    rewrite (dtor_unfold _ _ _ _ He) in Hc
      by (unfold Int.is_int32, Int.INT32_MAX in *; lia).
    fold ms in Hc. injection Hc as <-.
    destruct ((numThreads e - 1 =? 0) && isTemporary_ self).
    + apply lookup_delete_Some in Hd' as [_ Hd'].
      rewrite Hd in Hd'. injection Hd' as <-. lia.
    + destruct (decide (L = label_ self)) as [->|E].
      * rewrite lookup_insert_eq in Hd'. injection Hd' as <-.
        rewrite He in Hd. injection Hd as <-. simpl.
        rewrite uint64_id by (unfold Int.is_uint64; nia). lia.
      * rewrite lookup_insert_ne in Hd' by done.
        rewrite Hd in Hd'. injection Hd' as <-. lia.
Qed.

(** C7. Every sequence of constructions and destructions (each destruction
    of a context that is alive) run by a thread from its start runs to the
    end, and leaves every entry of the thread's map with
    [0 <= numThreads <= numEnters]; any further operation leaves [totalMs]
    and [maxMs] of an entry it keeps at least as large as they were. The
    sequence is shorter than [INT32_MAX], and the number of operations times
    the milliseconds since the thread's start is a [uint64_t] value. *)
Theorem invariants_preserved (t0 : Clock.time_point) (ops : list Op) :
  scoped 0 ops = true ->
  Z.of_nat (length ops) < Int.INT32_MAX ->
  exists th, run ops (newThread t0) = Some th /\
    (forall L d, counts th !! L = Some d ->
       0 <= numThreads d /\ numThreads d <= numEnters d) /\
    (forall op th', step op th = Some th' ->
       Z.of_nat (length ops) * Clock.millis (clock th' - t0) <= Int.UINT64_MAX ->
       forall L d d', counts th !! L = Some d -> counts th' !! L = Some d' ->
         totalMs d <= totalMs d' /\ maxMs d <= maxMs d').
Proof.
  intros Hsc Hlen.
  destruct (run_scoped t0 ops 0 (newThread t0) (Inv_new t0) ltac:(lia)
              ltac:(lia) Hsc) as (th & Hrun).
  pose proof (Inv_run t0 ops 0 _ _ (Inv_new t0) ltac:(lia) ltac:(lia) Hrun)
    as HI.
  rewrite Z.add_0_l in HI.
  exists th. split; [done|]. split.
  - intros L d Hd.
    pose proof (inv_enters _ _ _ HI L d Hd).
    pose proof (inv_active _ _ _ HI L) as Ha. rewrite Hd in Ha; simpl in Ha.
    pose proof (activeCount_nonneg L (live th)). lia.
  - intros op th' Hstep Hfit.
    eapply step_monotone; [exact HI|lia|exact Hstep|exact Hfit].
Qed.

Lemma invariants_preserved_witness :
  exists th,
    run [Construct "x" false 5; Construct "x" true 7; Destruct 0 3000000;
         Construct "y" true 1; Destruct 1 9000000] (newThread 100) = Some th /\
    (forall L d, counts th !! L = Some d ->
       0 <= numThreads d /\ numThreads d <= numEnters d).
Proof.
  destruct (invariants_preserved 100
    [Construct "x" false 5; Construct "x" true 7; Destruct 0 3000000;
     Construct "y" true 1; Destruct 1 9000000]) as (th & Hrun & Hinv & _).
  - vm_compute. reflexivity.
  - vm_compute. reflexivity.
  - exists th. split; assumption.
Defined.

(** ** Snapshots of running threads *)

Lemma reachable_entry (m : Counts) L d :
  reachable m -> m !! L = Some d ->
  0 <= numThreads d <= numEnters d /\ 1 <= numEnters d /\
  Int.is_uint64 (totalMs d) /\ Int.is_uint64 (maxMs d).
Proof.
  intros (t0 & ops & th & Hlen & Hrun & <-) Hd.
  pose proof (Inv_run t0 ops 0 _ _ (Inv_new t0) ltac:(lia) ltac:(lia) Hrun)
    as HI.
  pose proof (inv_enters _ _ _ HI L d Hd).
  pose proof (inv_total _ _ _ HI L d Hd) as (_ & ? & ?).
  pose proof (inv_active _ _ _ HI L) as Ha. rewrite Hd in Ha; simpl in Ha.
  pose proof (activeCount_nonneg L (live th)).
  split; [lia|]. split; [lia|]. done.
Qed.

Lemma entriesOf_reachable registry L :
  Forall reachable registry ->
  Forall (fun d => 0 <= numThreads d <= numEnters d /\ 1 <= numEnters d /\
                   Int.is_uint64 (totalMs d) /\ Int.is_uint64 (maxMs d))
         (entriesOf L registry).
Proof.
  intros Hall. apply Forall_forall. intros d Hd.
  apply list_elem_of_omap in Hd as (m & Hm & Hd).
  rewrite Forall_forall in Hall. eapply reachable_entry; eauto.
Qed.

Lemma sumOf_le f g ds :
  Forall (fun d => f d <= g d) ds -> sumOf f ds <= sumOf g ds.
Proof.
  induction 1 as [|d ds Hd _ IH]; [done|]. rewrite !sumOf_cons. lia.
Qed.

Lemma sumOf_pos f ds :
  Forall (fun d => 1 <= f d) ds -> ds <> [] -> 1 <= sumOf f ds.
Proof.
  intros Hall Hne. destruct Hall as [|d ds Hd Hall]; [done|].
  rewrite sumOf_cons.
  assert (0 <= sumOf f ds); [|lia].
  clear -Hall. induction Hall; [done|]. rewrite sumOf_cons. lia.
Qed.

Lemma sumOf_nonneg f ds :
  Forall (fun d => 0 <= f d) ds -> 0 <= sumOf f ds.
Proof. induction 1; [done|]. rewrite sumOf_cons. lia. Qed.

(** The aggregate of reachable maps keeps the relation of the counters. *)
Lemma status_entry_counters registry L d :
  Forall reachable registry ->
  sumOf numEnters (entriesOf L registry) <= Int.INT32_MAX ->
  status registry !! L = Some d ->
  0 <= numThreads d <= numEnters d /\ 1 <= numEnters d <= Int.INT32_MAX.
Proof.
  intros Hall Hsum Hd.
  pose proof (entriesOf_reachable registry L Hall) as Hent.
  rewrite status_lookup in Hd.
  set (entries := entriesOf L registry) in *.
  assert (entries <> []) as Hne by (by destruct entries).
  assert (d = foldl mergeData newTraceData entries) as ->
    by (destruct entries; congruence).
  destruct (foldl_mergeData_sums entries newTraceData wfAcc_new)
    as (E1 & E2 & _). simpl in E1, E2.
  assert (sumOf numThreads entries <= sumOf numEnters entries) as H1.
  { apply sumOf_le. eapply Forall_impl; [exact Hent|]. intros e; simpl; lia. }
  assert (0 <= sumOf numThreads entries) as H2.
  { apply sumOf_nonneg. eapply Forall_impl; [exact Hent|]. intros e; simpl; lia. }
  assert (1 <= sumOf numEnters entries) as H3.
  { apply sumOf_pos; [|done]. eapply Forall_impl; [exact Hent|]. intros e; simpl; lia. }
  rewrite int32_id in E1, E2
    by (unfold Int.is_int32, Int.INT32_MAX in *; lia).
  lia.
Qed.

Lemma entered_all ds : Forall (fun d => 1 <= numEnters d) ds -> entered ds = ds.
Proof.
  induction 1 as [|d ds Hd _ IH]; [done|].
  rewrite entered_cons, decide_True by lia. by rewrite IH.
Qed.

(** For the maps of running threads every entry of a label counts: the
    aggregated [startTime] of a label that some thread's map holds is the
    least [startTime] of the label over the threads. *)
Lemma aggregate_start_running registry L :
  Forall reachable registry ->
  sumOf numEnters (entriesOf L registry) <= Int.INT32_MAX ->
  entriesOf L registry <> [] ->
  entered (entriesOf L registry) = entriesOf L registry /\
  exists d, status registry !! L = Some d /\
    (exists e, e ∈ entriesOf L registry /\ startTime d = startTime e) /\
    Forall (fun e => startTime d <= startTime e) (entriesOf L registry).
Proof.
  intros Hall Hsum Hne.
  pose proof (entriesOf_reachable registry L Hall) as Hent.
  assert (entered (entriesOf L registry) = entriesOf L registry) as E.
  { apply entered_all. eapply Forall_impl; [exact Hent|].
    intros e; simpl; lia. }
  split; [done|].
  destruct (aggregate_start_min registry L) as (d & Hd & (e & He & Hs) & Hlow).
  - eapply Forall_impl; [exact Hent|]. intros e; simpl; lia.
  - done.
  - by rewrite E.
  - rewrite E in He, Hlow. exists d. split; [done|]. split; [|done].
    exists e. by split.
Qed.

(** The constructor completes the map of [ctorBeforeEnters] by its last
    statement, [++data.numEnters]. *)
Lemma ctor_completes label isTemporary now (counts : Counts) :
  (ctor label isTemporary now counts).2 =
  alter (fun data => setNumEnters (Int.int32 (numEnters data + 1)) data) label
        (ctorBeforeEnters label now counts).
Proof. unfold ctor, ctorBeforeEnters. cbn [snd label_ enterTime_]. by rewrite alter_insert_eq. Qed.

(** The relation of the counters in the aggregate, from the same relation
    in the per-thread entries. *)
Lemma aggregate_counters registry L d :
  Forall (fun e => 0 <= numThreads e <= numEnters e) (entriesOf L registry) ->
  sumOf numEnters (entriesOf L registry) <= Int.INT32_MAX ->
  status registry !! L = Some d ->
  0 <= numThreads d <= numEnters d /\ numEnters d <= Int.INT32_MAX.
Proof.
  intros Hent Hsum Hd.
  rewrite status_lookup in Hd.
  set (entries := entriesOf L registry) in *.
  assert (d = foldl mergeData newTraceData entries) as ->
    by (destruct entries; congruence).
  destruct (foldl_mergeData_sums entries newTraceData wfAcc_new)
    as (E1 & E2 & _). simpl in E1, E2.
  assert (sumOf numThreads entries <= sumOf numEnters entries) as H1.
  { apply sumOf_le. eapply Forall_impl; [exact Hent|]. intros e; simpl; lia. }
  assert (0 <= sumOf numThreads entries) as H2.
  { apply sumOf_nonneg. eapply Forall_impl; [exact Hent|]. intros e; simpl; lia. }
  rewrite int32_id in E1, E2
    by (unfold Int.is_int32, Int.INT32_MAX in *; lia).
  lia.
Qed.

(** C5, as amended. When every per-thread entry of a label has
    [0 <= numThreads <= numEnters], and the enters of the label sum to a
    value of the counter's type, an aggregated entry that [statusLine()]
    reports ([numThreads] not 0) has [numEnters >= numThreads >= 1]: the
    divisor of the average is not zero and the line is produced. Every map
    that a thread holds between two of its operations has such entries.
    (An entry read between [++data.numThreads] and [++data.numEnters] of a
    constructor need not: the statement says nothing about it.) *)
Theorem statusLine_divisor (registry : list Counts) (L : string) :
  (Forall reachable registry ->
   Forall (fun e => 0 <= numThreads e <= numEnters e) (entriesOf L registry)) /\
  (Forall (fun e => 0 <= numThreads e <= numEnters e) (entriesOf L registry) ->
   sumOf numEnters (entriesOf L registry) <= Int.INT32_MAX ->
   forall (d : TraceData) (now : Clock.time_point) (out : string),
     status registry !! L = Some d ->
     numThreads d <> 0 ->
     1 <= numThreads d /\ numThreads d <= numEnters d /\
     Int.uint64 (numEnters d) <> 0 /\
     is_Some (statusLineEntry now out (L, d))).
Proof.
  split.
  - intros Hall. eapply Forall_impl; [exact (entriesOf_reachable registry L Hall)|].
    intros e; simpl; lia.
  - intros Hent Hsum d now out Hd Hnz.
    destruct (aggregate_counters registry L d Hent Hsum Hd) as (Ht & He).
    assert (Int.uint64 (numEnters d) = numEnters d) as Hu.
    { apply uint64_id.
      unfold Int.is_uint64, Int.UINT64_MAX, Int.INT32_MAX in *. lia. }
    repeat split; try lia.
    unfold statusLineEntry. cbn [fst snd].
    destruct (Z.eqb_spec (numThreads d) 0); [done|].
    destruct (Z.eqb_spec (Int.uint64 (numEnters d)) 0); [lia|]. eauto.
Qed.

Lemma statusLine_divisor_witness :
  1 <= numThreads {| numThreads := 1; numEnters := 2; totalMs := 3;
                     maxMs := 3; startTime := 5 |} /\
  numThreads {| numThreads := 1; numEnters := 2; totalMs := 3;
                maxMs := 3; startTime := 5 |}
  <= numEnters {| numThreads := 1; numEnters := 2; totalMs := 3;
                  maxMs := 3; startTime := 5 |} /\
  Int.uint64 (numEnters {| numThreads := 1; numEnters := 2; totalMs := 3;
                           maxMs := 3; startTime := 5 |}) <> 0 /\
  is_Some (statusLineEntry 50 EmptyString
             ("x", {| numThreads := 1; numEnters := 2; totalMs := 3;
                      maxMs := 3; startTime := 5 |})).
Proof.
  refine (proj2 (statusLine_divisor
    [ {[ "x" := {| numThreads := 1; numEnters := 1; totalMs := 0;
                   maxMs := 0; startTime := 105 |} ]};
      {[ "x" := {| numThreads := 0; numEnters := 1; totalMs := 3;
                   maxMs := 3; startTime := 5 |} ]} ] "x") _ _
    {| numThreads := 1; numEnters := 2; totalMs := 3;
       maxMs := 3; startTime := 5 |} 50 EmptyString _ _).
  - vm_compute. repeat constructor; discriminate.
  - vm_compute. discriminate.
  - vm_compute. reflexivity.
  - vm_compute. discriminate.
Defined.

(** C5, as stated, fails on the map that a constructor leaves between its
    two increments: the aggregated entry of the label has [numThreads] 1 and
    [numEnters] 0, and [statusLine()] divides by zero. *)
Lemma statusLine_divisor_counterexample :
  status [ctorBeforeEnters "x" 40 ∅] !! "x" =
    Some {| numThreads := 1; numEnters := 0; totalMs := 0; maxMs := 0;
            startTime := 40 |} /\
  0 < numThreads {| numThreads := 1; numEnters := 0; totalMs := 0; maxMs := 0;
                    startTime := 40 |} /\
  numEnters {| numThreads := 1; numEnters := 0; totalMs := 0; maxMs := 0;
               startTime := 40 |}
  < numThreads {| numThreads := 1; numEnters := 0; totalMs := 0; maxMs := 0;
                  startTime := 40 |} /\
  Int.uint64 (numEnters {| numThreads := 1; numEnters := 0; totalMs := 0;
                           maxMs := 0; startTime := 40 |}) = 0 /\
  statusLineEntry 50 EmptyString
    ("x", {| numThreads := 1; numEnters := 0; totalMs := 0; maxMs := 0;
             startTime := 40 |}) = None /\
  statusLine 50 [ctorBeforeEnters "x" 40 ∅] = None.
Proof. vm_compute. repeat split; reflexivity. Qed.

(** ** The format of the report *)

Lemma append_cons x (a b : string) : String x a +:+ b = String x (a +:+ b).
Proof. reflexivity. Qed.

Lemma append_assoc (a b c : string) : (a +:+ b) +:+ c = a +:+ (b +:+ c).
Proof.
  induction a as [|x a IH]; [reflexivity|].
  rewrite !append_cons. f_equal. exact IH.
Qed.

Lemma append_nil_r (a : string) : a +:+ EmptyString = a.
Proof.
  induction a as [|x a IH]; [reflexivity|].
  rewrite append_cons. f_equal. exact IH.
Qed.

Lemma unlines_cons x xs : unlines (x :: xs) = x +:+ String lineFeed (unlines xs).
Proof. reflexivity. Qed.

Lemma statusLineEntry_spec now out L d :
  0 <= numThreads d ->
  (numThreads d <> 0 -> 1 <= numEnters d <= Int.INT32_MAX) ->
  statusLineEntry now out (L, d) =
  Some (out +:+ (if decide (0 < numThreads d)
                 then specLine now L d +:+ String lineFeed EmptyString
                 else EmptyString)).
Proof.
  intros Ht He. unfold statusLineEntry. cbn [fst snd].
  destruct (Z.eqb_spec (numThreads d) 0) as [E|E]; case_decide; try lia.
  - by rewrite append_nil_r.
  - specialize (He E).
    assert (Int.uint64 (numEnters d) = numEnters d) as Hu.
    { apply uint64_id.
      unfold Int.is_uint64, Int.UINT64_MAX, Int.INT32_MAX in *. lia. }
    rewrite Hu.
    destruct (Z.eqb_spec (numEnters d) 0); [lia|].
    unfold specLine. cbv zeta. rewrite !append_assoc. reflexivity.
Qed.

Lemma statusLine_fold now (l : list (string * TraceData)) out :
  Forall (fun kv => 0 <= numThreads kv.2 /\
                    (numThreads kv.2 <> 0 ->
                     1 <= numEnters kv.2 <= Int.INT32_MAX)) l ->
  foldl (fun out pair => out ≫= fun o => statusLineEntry now o pair)
        (Some out) l =
  Some (out +:+ unlines
          ((fun kv => specLine now kv.1 kv.2) <$>
             filter (fun kv => 0 < numThreads kv.2) l)).
Proof.
  intros Hall. revert out.
  induction Hall as [|[L d] l [Ht He] _ IH]; intros out.
  - simpl. by rewrite append_nil_r.
  - cbn [fst snd] in Ht, He. cbn [foldl].
    replace (Some out ≫= fun o => statusLineEntry now o (L, d))
      with (statusLineEntry now out (L, d)) by reflexivity.
    rewrite (statusLineEntry_spec now out L d Ht He).
    rewrite IH, filter_cons. cbn [fst snd].
    case_decide.
    + rewrite fmap_cons, unlines_cons. cbn [fst snd].
      rewrite !append_assoc. reflexivity.
    + by rewrite append_nil_r.
Qed.

Lemma countLF_app a b : countLF (a +:+ b) = (countLF a + countLF b)%nat.
Proof.
  induction a as [|c a IH]; [reflexivity|].
  rewrite append_cons. cbn [countLF]. rewrite IH. lia.
Qed.

Lemma countLF_pretty_N_go x s : countLF (pretty_N_go x s) = countLF s.
Proof.
  revert s. induction (N.lt_wf_0 x) as [x _ IH]; intros s.
  assert (x = 0 \/ 0 < x)%N as [->|Hx] by lia.
  - by rewrite pretty_N_go_0.
  - rewrite pretty_N_go_step by done.
    rewrite IH by (by apply N.div_lt).
    cbn [countLF]. unfold pretty_N_char.
    by repeat case_match.
Qed.

Lemma countLF_pretty_N (x : N) : countLF (pretty x) = 0%nat.
Proof.
  unfold pretty, pretty_N. case_decide; [reflexivity|].
  by rewrite countLF_pretty_N_go.
Qed.

Lemma countLF_pretty_Z (z : Z) : countLF (pretty z) = 0%nat.
Proof.
  destruct z as [|p|p]; [reflexivity| |].
  - apply (countLF_pretty_N (N.pos p)).
  - change (pretty (Z.neg p)) with ("-" +:+ pretty (N.pos p)).
    rewrite countLF_app, countLF_pretty_N. reflexivity.
Qed.

Lemma countLF_specLine now L d :
  countLF L = 0%nat -> countLF (specLine now L d) = 0%nat.
Proof.
  intros HL. unfold specLine. cbv zeta.
  rewrite !countLF_app, !countLF_pretty_Z, HL. reflexivity.
Qed.

Lemma countLF_unlines ls :
  Forall (fun l => countLF l = 0%nat) ls -> countLF (unlines ls) = length ls.
Proof.
  induction 1 as [|l ls Hl _ IH]; [reflexivity|].
  rewrite unlines_cons, countLF_app, Hl. cbn [countLF length].
  rewrite IH. reflexivity.
Qed.

Lemma reported_labels registry L :
  L ∈ (reported registry).*1 <->
  exists d, status registry !! L = Some d /\ 0 < numThreads d.
Proof.
  unfold reported. rewrite list_elem_of_fmap. split.
  - intros ([L' d] & -> & [Hpos Hin%elem_of_map_to_list]%list_elem_of_filter).
    simpl in *. eauto.
  - intros (d & Hd & Hpos). exists (L, d). split; [done|].
    apply list_elem_of_filter. split; [done|]. by apply elem_of_map_to_list.
Qed.

(** The snapshot of threads that are between two of their operations has
    the entries that the format of the report needs. *)
Lemma running_snapshot_entries registry :
  Forall reachable registry ->
  map_Forall (fun L _ => sumOf numEnters (entriesOf L registry) <= Int.INT32_MAX)
             (status registry) ->
  map_Forall (fun _ d => 0 <= numThreads d /\
                (numThreads d <> 0 -> 1 <= numEnters d <= Int.INT32_MAX))
             (status registry).
Proof.
  intros Hall Hsum L d Hd.
  destruct (status_entry_counters registry L d Hall (Hsum L d Hd) Hd). lia.
Qed.

(** C8, as amended. For a snapshot in which every aggregated entry has
    [numThreads >= 0] and, when [numThreads] is not 0, [numEnters >= 1] (as
    the snapshot of threads between two of their operations has),
    [statusLine()] is the text of one line, ended by a line feed, for every
    label whose aggregated [numThreads] is above 0, in the format
    "<label>=<numThreads> entered <numEnters> avg ms <avg> max ms <maxMs>
    continuous for <elapsedMs>": each such label of [status()] has exactly
    one line, the text has as many line feeds as there are such labels when
    no label holds a line feed, and a label whose aggregated [numThreads] is
    0 has no line. (Nothing is said of a snapshot with an entry read between
    the two increments of a constructor.) *)
Theorem statusLine_format (now : Clock.time_point) (registry : list Counts) :
  map_Forall (fun _ d => 0 <= numThreads d /\
                (numThreads d <> 0 -> 1 <= numEnters d <= Int.INT32_MAX))
             (status registry) ->
  statusLine now registry =
    Some (unlines ((fun kv => specLine now kv.1 kv.2) <$> reported registry)) /\
  (Forall (fun kv => countLF kv.1 = 0%nat) (reported registry) ->
   countLF (unlines ((fun kv => specLine now kv.1 kv.2) <$> reported registry))
   = length (reported registry)) /\
  NoDup (reported registry).*1 /\
  (forall L, L ∈ (reported registry).*1 <->
             exists d, status registry !! L = Some d /\ 0 < numThreads d) /\
  (forall L d, status registry !! L = Some d -> numThreads d = 0 ->
               L ∉ (reported registry).*1).
Proof.
  intros Hent.
  split; [|split; [|split; [|split]]].
  - unfold statusLine, reported.
    rewrite (statusLine_fold now _ EmptyString); [done|].
    apply Forall_forall. intros [L d] Hin%elem_of_map_to_list.
    exact (Hent L d Hin).
  - intros Hlabels. rewrite countLF_unlines, length_fmap; [done|].
    apply Forall_fmap. eapply Forall_impl; [exact Hlabels|].
    intros kv Hkv. by apply countLF_specLine.
  - unfold reported. eapply NoDup_fmap_fst.
    + intros L d1 d2 [_ H1%elem_of_map_to_list]%list_elem_of_filter
        [_ H2%elem_of_map_to_list]%list_elem_of_filter. congruence.
    + apply NoDup_filter, NoDup_map_to_list.
  - apply reported_labels.
  - intros L d Hd H0 (d' & Hd' & Hpos)%reported_labels. rewrite Hd in Hd'.
    injection Hd' as <-. lia.
Qed.

Lemma statusLine_format_witness :
  statusLine 22000000
    [ {[ "x" := {| numThreads := 1; numEnters := 1; totalMs := 0; maxMs := 0;
                   startTime := 105 |} ]};
      {[ "x" := {| numThreads := 0; numEnters := 1; totalMs := 3; maxMs := 3;
                   startTime := 5 |} ]};
      {[ "idle" := {| numThreads := 0; numEnters := 1; totalMs := 0; maxMs := 0;
                      startTime := 9 |} ]} ] =
  Some "x=1 entered 2 avg ms 1 max ms 3 continuous for 21
".
Proof.
  set (registry := [ _; _; _ ]).
  assert (map_Forall
            (fun _ d => 0 <= numThreads d /\
               (numThreads d <> 0 -> 1 <= numEnters d <= Int.INT32_MAX))
            (status registry)) as Hent.
  { apply map_Forall_to_list.
    set (l := map_to_list (status registry)). vm_compute in l. subst l.
    repeat (constructor; [vm_compute; repeat split; discriminate|]).
    constructor. }
  rewrite (proj1 (statusLine_format 22000000 registry Hent)).
  vm_compute. reflexivity.
Defined.

(** C8, as stated, fails on a snapshot with the map that a constructor
    leaves between its two increments: the labels "x" and "y" have an
    aggregated [numThreads] above 0, and [statusLine()] returns no text: it
    divides by zero at "x". *)
Lemma statusLine_format_counterexample :
  status [ ctorBeforeEnters "x" 40 ∅;
           {[ "y" := {| numThreads := 1; numEnters := 1; totalMs := 0;
                        maxMs := 0; startTime := 30 |} ]} ] !! "x" =
    Some {| numThreads := 1; numEnters := 0; totalMs := 0; maxMs := 0;
            startTime := 40 |} /\
  0 < numThreads {| numThreads := 1; numEnters := 0; totalMs := 0; maxMs := 0;
                    startTime := 40 |} /\
  status [ ctorBeforeEnters "x" 40 ∅;
           {[ "y" := {| numThreads := 1; numEnters := 1; totalMs := 0;
                        maxMs := 0; startTime := 30 |} ]} ] !! "y" =
    Some {| numThreads := 1; numEnters := 1; totalMs := 0; maxMs := 0;
            startTime := 30 |} /\
  statusLine 50 [ ctorBeforeEnters "x" 40 ∅;
                  {[ "y" := {| numThreads := 1; numEnters := 1; totalMs := 0;
                               maxMs := 0; startTime := 30 |} ]} ] = None.
Proof. vm_compute. repeat split; reflexivity. Qed.

(** ** The scenarios of the specification, evaluated *)

(** Nesting on one thread: two activations of "x", the inner one destroyed
    first after 3 ms, the outer one after 12 ms. *)
Example nesting_scenario :
  (fun th => map_to_list (counts th)) <$>
    run [Construct "x" false 0; Construct "x" false 0;
         Destruct 0 3000000; Destruct 0 9000000] (newThread 0) =
  Some [("x", {| numThreads := 0; numEnters := 2; totalMs := 15; maxMs := 12;
                 startTime := 0 |})].
Proof. vm_compute. reflexivity. Qed.

(** A thread holds "load" for 50 ms and releases it. *)
Example load_scenario :
  (fun th => status [counts th] !! "load") <$>
    run [Construct "load" false 0; Destruct 0 50000000] (newThread 7) =
  Some (Some {| numThreads := 0; numEnters := 1; totalMs := 50; maxMs := 50;
                startTime := 7 |}).
Proof. vm_compute. reflexivity. Qed.

(** A temporary activation of a label after a completed non-temporary one:
    the entry and what it had accumulated are gone. *)
Example history_discarded_scenario :
  (fun th => counts th !! "scan") <$>
    run [Construct "scan" false 0; Destruct 0 40000000;
         Construct "scan" true 5; Destruct 0 1000000] (newThread 0) =
  Some None.
Proof. vm_compute. reflexivity. Qed.

(** * Further properties *)

(** ** Induction over the operations of a thread *)

Lemma run_app ops1 ops2 th :
  run (ops1 ++ ops2) th = run ops1 th ≫= run ops2.
Proof.
  revert th. induction ops1 as [|op ops1 IH]; intros th; simpl; [done|].
  destruct (step op th) as [th1|]; simpl; [apply IH|done].
Qed.

(** A property of the operations run so far and of the state they lead to
    holds after every run, if it holds at the start and every step keeps
    it; the step may rely on the invariant of the thread. *)
Lemma run_induction t0 (Q : list Op -> Thread -> Prop) :
  Q [] (newThread t0) ->
  (forall done op th th',
     Inv t0 (Z.of_nat (length done)) th ->
     Z.of_nat (length done) < Int.INT32_MAX ->
     Q done th -> step op th = Some th' -> Q (done ++ [op]) th') ->
  forall ops th,
    Z.of_nat (length ops) <= Int.INT32_MAX ->
    run ops (newThread t0) = Some th -> Q ops th.
Proof.
  intros Hinit Hstep ops.
  induction ops as [|op ops IH] using rev_ind; intros th Hlen Hrun.
  - simpl in Hrun. by injection Hrun as <-.
  - rewrite length_app in Hlen. simpl in Hlen.
    rewrite run_app in Hrun.
    destruct (run ops (newThread t0)) as [th1|] eqn:Hrun1; [|done].
    simpl in Hrun. destruct (step op th1) as [th2|] eqn:Hs; [|done].
    simpl in Hrun. injection Hrun as <-.
    apply (Hstep ops op th1 th2); [|lia|apply IH; [lia|done]|done].
    pose proof (Inv_run t0 ops 0 _ _ (Inv_new t0) ltac:(lia) ltac:(lia) Hrun1)
      as HI.
    by rewrite Z.add_0_l in HI.
Qed.

Lemma running_Inv th :
  running th -> exists t0 n, 0 <= n <= Int.INT32_MAX /\ Inv t0 n th.
Proof.
  intros (t0 & ops & Hlen & Hrun).
  exists t0, (Z.of_nat (length ops)). split; [lia|].
  pose proof (Inv_run t0 ops 0 _ _ (Inv_new t0) ltac:(lia) ltac:(lia) Hrun)
    as HI.
  by rewrite Z.add_0_l in HI.
Qed.

Lemma running_reachable th : running th -> reachable (counts th).
Proof. intros (t0 & ops & Hlen & Hrun). by exists t0, ops, th. Qed.

(** ** What the counters count *)

(** X1. On a thread between two of its operations, [numThreads] of a label
    is the number of [TraceContext] objects of that label alive on the
    thread (0 for a label without entry), and the label of every live
    context has an entry, which the destructor will find. *)
Theorem numThreads_counts_live (th : Thread) (L : string) :
  running th ->
  numThreads (default newTraceData (counts th !! L)) = activeCount L (live th) /\
  (forall c, c ∈ live th -> label_ c = L ->
     exists d, counts th !! L = Some d /\ 1 <= numThreads d).
Proof.
  intros (t0 & n & Hn & HI)%running_Inv. split.
  - apply (inv_active _ _ _ HI).
  - intros c Hc <-. by eapply Inv_present.
Qed.

Lemma numThreads_counts_live_witness :
  numThreads (default newTraceData
    (({[ "x" := {| numThreads := 2; numEnters := 3; totalMs := 4; maxMs := 4;
                   startTime := 5 |} ]} : Counts) !! "x")) =
  activeCount "x"
    [ {| label_ := "x"; enterTime_ := 4000012; isTemporary_ := true |};
      {| label_ := "x"; enterTime_ := 5; isTemporary_ := false |} ].
Proof.
  refine (proj1 (numThreads_counts_live
    {| clock := 4000012;
       live := [ {| label_ := "x"; enterTime_ := 4000012; isTemporary_ := true |};
                 {| label_ := "x"; enterTime_ := 5; isTemporary_ := false |} ];
       counts := {[ "x" := {| numThreads := 2; numEnters := 3; totalMs := 4;
                              maxMs := 4; startTime := 5 |} ]} |} "x" _)).
  exists 0, [Construct "x" false 5; Construct "x" false 3; Destruct 0 4000000;
             Construct "x" true 4].
  split; [vm_compute; discriminate|]. vm_compute. reflexivity.
Defined.

Lemma constructions_app L ops1 ops2 :
  constructions L (ops1 ++ ops2) = constructions L ops1 + constructions L ops2.
Proof.
  induction ops1 as [|[l t dt|i dt] ops1 IH]; simpl; [done| |done].
  rewrite IH. lia.
Qed.

Lemma dtor_other self now (counts counts' : Counts) l :
  dtor self now counts = Some counts' -> l <> label_ self ->
  counts' !! l = counts !! l.
Proof.
  unfold dtor. intros H Hl.
  destruct (counts !! label_ self) as [d|]; [|done].
  destruct (_ && _); injection H as <-.
  - by rewrite lookup_delete_ne.
  - by rewrite lookup_insert_ne.
Qed.

Lemma dtor_permanent self now (counts counts' : Counts) d :
  dtor self now counts = Some counts' ->
  counts !! label_ self = Some d -> isTemporary_ self = false ->
  exists d', counts' !! label_ self = Some d' /\
             numEnters d' = numEnters d /\ startTime d' = startTime d.
Proof.
  unfold dtor. intros H Hd Ht. rewrite Hd, Ht, andb_false_r in H.
  injection H as <-. rewrite lookup_insert_eq. eauto.
Qed.

(** X2. On a thread that never constructs a label as temporary, [numEnters]
    of the label is the number of constructions of the label the thread has
    run (fewer than [INT32_MAX] operations in all); once the label has been
    constructed its entry stays in the map. *)
Theorem numEnters_counts_constructions (t0 : Clock.time_point)
    (ops : list Op) (th : Thread) (L : string) :
  Z.of_nat (length ops) <= Int.INT32_MAX ->
  run ops (newThread t0) = Some th ->
  permanent L ops ->
  numEnters (default newTraceData (counts th !! L)) = constructions L ops /\
  (0 < constructions L ops -> is_Some (counts th !! L)).
Proof.
  intros Hlen Hrun Hperm.
  assert (numEnters (default newTraceData (counts th !! L)) = constructions L ops)
    as Hcount.
  { revert Hperm.
    cut (permanent L ops ->
         numEnters (default newTraceData (counts th !! L)) = constructions L ops /\
         forall c, c ∈ live th -> label_ c = L -> isTemporary_ c = false);
      [tauto|].
    revert ops th Hlen Hrun.
    apply (run_induction t0 (fun done th =>
      permanent L done ->
      numEnters (default newTraceData (counts th !! L)) = constructions L done /\
      forall c, c ∈ live th -> label_ c = L -> isTemporary_ c = false)).
    - intros _. split; [done|]. intros c Hc. by apply elem_of_nil in Hc.
    - intros done op th th' HI Hn IHQ Hstep Hperm.
      apply Forall_app in Hperm as [Hperm Hop].
      apply Forall_cons in Hop as [Hop _].
      destruct (IHQ Hperm) as [Hcnt Hlive].
      rewrite constructions_app. simpl.
      destruct op as [label isTemporary dt|i dt].
      + rewrite step_Construct in Hstep. apply (inj Some) in Hstep. subst th'.
        cbn [counts live]. split.
        * destruct (decide (label = L)) as [->|E].
          -- destruct (Inv_default t0 _ th L HI ltac:(lia))
               as (_ & ? & ? & _).
             rewrite (ctor_lookup L isTemporary _ _ _ eq_refl);
               [simpl; lia|unfold Int.is_int32, Int.INT32_MAX in *; lia..].
          -- rewrite ctor_other by done. lia.
        * intros c [->|Hc]%elem_of_cons HL; [|by apply Hlive].
          rewrite ctor_self in HL |- *. simpl in *. subst label.
          by destruct isTemporary.
      + simpl in Hstep.
        destruct (live th !! i) as [self|] eqn:Hi; [|done]. simpl in Hstep.
        destruct (dtor self _ (counts th)) as [counts'|] eqn:Hd; [|done].
        simpl in Hstep. injection Hstep as <-. cbn [counts live].
        assert (self ∈ live th) as Hin by (by eapply list_elem_of_lookup_2).
        split.
        * destruct (decide (L = label_ self)) as [->|E].
          -- destruct (Inv_present _ _ _ _ HI Hin) as (d & Hd0 & _).
             destruct (dtor_permanent _ _ _ _ _ Hd Hd0 (Hlive _ Hin eq_refl))
               as (d' & Hd' & He & _).
             rewrite Hd0 in Hcnt. rewrite Hd'. simpl in *. lia.
          -- rewrite (dtor_other _ _ _ _ L Hd) by done. lia.
        * intros c Hc%list_subseteq_delete. by apply Hlive. }
  split; [done|]. intros Hpos. rewrite <- Hcount in Hpos.
  destruct (counts th !! L); [eauto|]. simpl in Hpos. lia.
Qed.

Lemma numEnters_counts_constructions_witness :
  numEnters (default newTraceData
    (({[ "x" := {| numThreads := 1; numEnters := 2; totalMs := 3; maxMs := 3;
                   startTime := 3000012 |} ]} : Counts) !! "x")) =
  constructions "x"
    [Construct "x" false 5; Construct "y" true 0; Destruct 1 3000000;
     Destruct 0 1; Construct "x" false 6].
Proof.
  refine (proj1 (numEnters_counts_constructions 0
    [Construct "x" false 5; Construct "y" true 0; Destruct 1 3000000;
     Destruct 0 1; Construct "x" false 6]
    {| clock := 3000012;
       live := [ {| label_ := "x"; enterTime_ := 3000012; isTemporary_ := false |} ];
       counts := {[ "x" := {| numThreads := 1; numEnters := 2; totalMs := 3;
                              maxMs := 3; startTime := 3000012 |} ]} |}
    "x" _ _ _)).
  - vm_compute. discriminate.
  - vm_compute. reflexivity.
  - repeat constructor; discriminate.
Defined.

(** ** Activations one after the other *)

Lemma ctor_exact (label : string) (isTemporary : bool)
    (now : Clock.time_point) (counts : Counts) (d0 : TraceData) :
  d0 = default newTraceData (counts !! label) ->
  Int.is_int32 (numThreads d0) -> numThreads d0 < Int.INT32_MAX ->
  Int.is_int32 (numEnters d0) -> numEnters d0 < Int.INT32_MAX ->
  (ctor label isTemporary now counts).2 =
  <[label := {| numThreads := numThreads d0 + 1;
                numEnters := numEnters d0 + 1;
                totalMs := totalMs d0;
                maxMs := maxMs d0;
                startTime := if numThreads d0 =? 0 then now
                             else startTime d0 |}]> counts.
Proof.
  intros Hd0 Ht Htmax He Hemax.
  apply map_eq. intros l. destruct (decide (l = label)) as [->|E].
  - rewrite lookup_insert_eq. by apply ctor_lookup.
  - rewrite lookup_insert_ne by done. by apply ctor_other.
Qed.

Lemma one_activation L (dt d : N) th e0 :
  e0 = default newTraceData (counts th !! L) ->
  numThreads e0 = 0 -> 0 <= numEnters e0 < Int.INT32_MAX ->
  0 <= totalMs e0 ->
  totalMs e0 + Clock.millis (Z.of_N d) <= Int.UINT64_MAX ->
  run [Construct L false dt; Destruct 0 d] th =
  Some {| clock := clock th + Z.of_N dt + Z.of_N d;
          live := live th;
          counts := <[L := {| numThreads := 0;
                              numEnters := numEnters e0 + 1;
                              totalMs := totalMs e0 + Clock.millis (Z.of_N d);
                              maxMs := Z.max (maxMs e0) (Clock.millis (Z.of_N d));
                              startTime := clock th + Z.of_N dt |}]>
                      (counts th) |}.
Proof.
  intros He0 Ht He Htot Hfit.
  pose proof (millis_nonneg (Z.of_N d) ltac:(lia)) as Hms.
  cbn [run]. rewrite step_Construct. cbn [mbind option_bind].
  rewrite (ctor_exact L false _ _ e0 He0);
    [|unfold Int.is_int32, Int.INT32_MAX in *; lia..].
  rewrite Ht. change (0 =? 0) with true. cbv iota.
  rewrite ctor_self.
  set (self := {| label_ := L; enterTime_ := clock th + Z.of_N dt;
                  isTemporary_ := false |}).
  unfold step. cbn [live clock counts].
  change ((self :: live th) !! 0%nat) with (Some self).
  cbn [mbind option_bind].
  rewrite (dtor_unfold self _ _ _ (lookup_insert_eq _ _ _));
    [|simpl; vm_compute; split; discriminate].
  cbn [numThreads numEnters totalMs maxMs startTime isTemporary_ label_ self
       enterTime_].
  rewrite andb_false_r. cbn [mbind option_bind].
  replace (clock th + Z.of_N dt + Z.of_N d - (clock th + Z.of_N dt))
    with (Z.of_N d) by lia.
  rewrite !uint64_id by (unfold Int.is_uint64; lia).
  rewrite insert_insert_eq. reflexivity.
Qed.

Lemma durations_nonneg acts : 0 <= foldr Z.add 0 (durations acts).
Proof.
  induction acts as [|a acts IH]; simpl; [done|].
  pose proof (millis_nonneg (Z.of_N a.2) ltac:(lia)). lia.
Qed.

Lemma foldr_max_start a m l :
  foldr Z.max (Z.max a m) l = Z.max m (foldr Z.max a l).
Proof. induction l as [|x l IH]; simpl; lia. Qed.

(** X3. Activations of a label one after the other on a thread, none of
    them temporary and none while another activation of the label is
    active: afterwards [numThreads] of the label is 0 again, [numEnters] has
    grown by the number of activations, [totalMs] by the sum of their
    lengths in milliseconds, [maxMs] is the largest of the previous [maxMs]
    and these lengths, the label has an entry, and the live contexts and the
    other labels are as before. The totals stay within the fields' types. *)
Theorem sequential_activations (L : string) (acts : list (N * N))
    (th : Thread) (e0 : TraceData) :
  e0 = default newTraceData (counts th !! L) ->
  numThreads e0 = 0 ->
  0 <= numEnters e0 ->
  numEnters e0 + Z.of_nat (length acts) <= Int.INT32_MAX ->
  0 <= totalMs e0 ->
  totalMs e0 + foldr Z.add 0 (durations acts) <= Int.UINT64_MAX ->
  exists th',
    run (sequential L acts) th = Some th' /\
    live th' = live th /\
    (forall l, l <> L -> counts th' !! l = counts th !! l) /\
    (acts <> [] -> is_Some (counts th' !! L)) /\
    let d := default newTraceData (counts th' !! L) in
    numThreads d = 0 /\
    numEnters d = numEnters e0 + Z.of_nat (length acts) /\
    totalMs d = totalMs e0 + foldr Z.add 0 (durations acts) /\
    maxMs d = foldr Z.max (maxMs e0) (durations acts).
Proof.
  revert th e0. induction acts as [|a acts IH]; intros th e0 He0 Ht He Hlen Htot Hfit.
  - exists th. simpl. rewrite <- He0. repeat split; try done; lia.
  - pose proof (durations_nonneg acts) as Hnn.
    pose proof (millis_nonneg (Z.of_N a.2) ltac:(lia)) as Hms.
    simpl length in Hlen. simpl in Hfit.
    pose proof (one_activation L a.1 a.2 th e0 He0 Ht ltac:(lia) Htot
                  ltac:(lia)) as Hone.
    set (e1 := {| numThreads := 0; numEnters := numEnters e0 + 1;
                  totalMs := totalMs e0 + Clock.millis (Z.of_N a.2);
                  maxMs := Z.max (maxMs e0) (Clock.millis (Z.of_N a.2));
                  startTime := clock th + Z.of_N a.1 |}) in *.
    set (th1 := {| clock := clock th + Z.of_N a.1 + Z.of_N a.2;
                   live := live th; counts := <[L := e1]> (counts th) |}) in *.
    destruct (IH th1 e1) as (th' & Hrun & Hlive & Hother & _ & Hn & Hen & Htm & Hmx).
    + subst th1. cbn [counts]. by rewrite lookup_insert_eq.
    + done.
    + simpl. lia.
    + simpl. lia.
    + simpl. lia.
    + simpl. lia.
    + exists th'. split; [|split; [|split; [|split]]].
      * change (sequential L (a :: acts))
          with ([Construct L false a.1; Destruct 0 a.2] ++ sequential L acts).
        rewrite run_app, Hone. exact Hrun.
      * by rewrite Hlive.
      * intros l Hl. rewrite (Hother l Hl). subst th1. cbn [counts].
        by rewrite lookup_insert_ne.
      * intros _. destruct acts as [|a' acts].
        -- simpl in Hrun. injection Hrun as <-. subst th1. cbn [counts].
           rewrite lookup_insert_eq. eauto.
        -- destruct (counts th' !! L) eqn:E; [eauto|].
           simpl in Hen. simpl length in Hen. lia.
      * cbv zeta in Hn, Hen, Htm, Hmx |- *.
        rewrite Hn, Hen, Htm, Hmx. subst e1. cbn [numEnters totalMs maxMs].
        simpl length. simpl durations. cbn [foldr].
        rewrite foldr_max_start. repeat split; lia.
Qed.

Lemma sequential_activations_witness :
  exists th',
    run (sequential "load" [(5, 50000000); (7, 20000000)]%N) (newThread 3)
      = Some th' /\
    counts th' !! "load" =
      Some {| numThreads := 0; numEnters := 2; totalMs := 70; maxMs := 50;
              startTime := 50000015 |}.
Proof.
  destruct (sequential_activations "load" [(5, 50000000); (7, 20000000)]%N
              (newThread 3) newTraceData)
    as (th' & Hrun & _).
  - vm_compute. reflexivity.
  - vm_compute. reflexivity.
  - vm_compute. discriminate.
  - vm_compute. discriminate.
  - vm_compute. discriminate.
  - vm_compute. discriminate.
  - exists th'. split; [exact Hrun|].
    vm_compute in Hrun. injection Hrun as <-. vm_compute. reflexivity.
Defined.

(** ** The start time of an entry *)

Lemma dtor_lookup_cases self now (counts counts' : Counts) d :
  dtor self now counts = Some counts' ->
  counts !! label_ self = Some d ->
  counts' !! label_ self = None \/
  exists d', counts' !! label_ self = Some d' /\
             startTime d' = startTime d /\ numEnters d' = numEnters d.
Proof.
  unfold dtor. intros H Hd. rewrite Hd in H.
  destruct (_ && _); injection H as <-.
  - left. apply lookup_delete_eq.
  - right. rewrite lookup_insert_eq. eauto.
Qed.

Lemma ctor_startTime t0 n th label isTemporary now :
  Inv t0 n th -> 0 <= n < Int.INT32_MAX ->
  exists d', (ctor label isTemporary now (counts th)).2 !! label = Some d' /\
    startTime d' =
      if activeCount label (live th) =? 0 then now
      else startTime (default newTraceData (counts th !! label)).
Proof.
  intros HI Hn.
  destruct (Inv_default t0 n th label HI ltac:(lia)) as (Ha & ? & ? & _).
  eexists. split.
  - apply (ctor_lookup label isTemporary now _ _ eq_refl);
      unfold Int.is_int32, Int.INT32_MAX in *; lia.
  - simpl. by rewrite Ha.
Qed.

Lemma running_startTime_bounds (th : Thread) :
  running th ->
  (forall L d, counts th !! L = Some d -> startTime d <= clock th) /\
  (forall c d, c ∈ live th -> counts th !! label_ c = Some d ->
     startTime d <= enterTime_ c).
Proof.
  intros (t0 & ops & Hlen & Hrun). revert ops th Hlen Hrun.
  apply (run_induction t0 (fun _ th =>
    (forall L d, counts th !! L = Some d -> startTime d <= clock th) /\
    (forall c d, c ∈ live th -> counts th !! label_ c = Some d ->
       startTime d <= enterTime_ c))).
  - split; [done|]. intros c d Hc. by apply elem_of_nil in Hc.
  - intros done op th th' HI Hn [Hclk Hlive] Hstep.
    destruct op as [label isTemporary dt|i dt].
    + rewrite step_Construct in Hstep. apply (inj Some) in Hstep. subst th'.
      cbn [counts live clock].
      destruct (ctor_startTime t0 _ th label isTemporary
                  (clock th + Z.of_N dt) HI ltac:(lia)) as (d' & Hd' & Hst).
      assert (startTime d' <= clock th + Z.of_N dt) as Hnew.
      { rewrite Hst. destruct (Z.eqb_spec (activeCount label (live th)) 0) as [|Hne];
          [lia|].
        pose proof (inv_active _ _ _ HI label) as Ha.
        destruct (counts th !! label) as [d0|] eqn:E; simpl in *; [|lia].
        pose proof (Hclk label d0 E). lia. }
      split.
      * intros L d Hd. destruct (decide (L = label)) as [->|E].
        -- rewrite Hd' in Hd. injection Hd as <-. done.
        -- rewrite ctor_other in Hd by done. pose proof (Hclk L d Hd). lia.
      * intros c d [->|Hc]%elem_of_cons Hd.
        -- rewrite ctor_self in Hd |- *. cbn [label_ enterTime_] in *.
           rewrite Hd' in Hd. injection Hd as <-. done.
        -- destruct (decide (label_ c = label)) as [E|E].
           ++ rewrite E, Hd' in Hd. injection Hd as <-. rewrite Hst.
              pose proof (activeCount_elem label _ _ Hc E).
              destruct (Z.eqb_spec (activeCount label (live th)) 0); [lia|].
              destruct (Inv_present _ _ _ _ HI Hc) as (d0 & Hd0 & _).
              rewrite <- E, Hd0. simpl. by apply Hlive.
           ++ rewrite ctor_other in Hd by done. by apply Hlive.
    + simpl in Hstep.
      destruct (live th !! i) as [self|] eqn:Hi; [|done]. simpl in Hstep.
      destruct (dtor self _ (counts th)) as [counts'|] eqn:Hd; [|done].
      simpl in Hstep. injection Hstep as <-. cbn [counts live clock].
      assert (self ∈ live th) as Hin by (by eapply list_elem_of_lookup_2).
      destruct (Inv_present _ _ _ _ HI Hin) as (d0 & Hd0 & _).
      assert (forall L d, counts' !! L = Some d ->
                exists e, counts th !! L = Some e /\ startTime d = startTime e)
        as Hsame.
      { intros L d HL. destruct (decide (L = label_ self)) as [->|E].
        - destruct (dtor_lookup_cases _ _ _ _ _ Hd Hd0)
            as [Hnone|(d' & Hd' & Hst & _)]; [congruence|].
          rewrite Hd' in HL. injection HL as <-. eauto.
        - rewrite (dtor_other _ _ _ _ L Hd) in HL by done. eauto. }
      split.
      * intros L d (e & He & ->)%Hsame. pose proof (Hclk L e He). lia.
      * intros c d Hc%list_subseteq_delete (e & He & ->)%Hsame.
        by apply Hlive.
Qed.

(** X4. On a thread between two of its operations, [startTime] of an entry
    is not after the thread's clock and not after the [enterTime_] of any
    live context of the label: the "continuous for" time of the report is
    at least the age of every live activation of the label. *)
Theorem startTime_before_live (th : Thread) :
  running th ->
  (forall L d, counts th !! L = Some d -> startTime d <= clock th) /\
  (forall c d, c ∈ live th -> counts th !! label_ c = Some d ->
     startTime d <= enterTime_ c).
Proof. apply running_startTime_bounds. Qed.

Lemma startTime_before_live_witness :
  startTime {| numThreads := 2; numEnters := 3; totalMs := 4; maxMs := 4;
               startTime := 5 |}
  <= enterTime_ {| label_ := "x"; enterTime_ := 8; isTemporary_ := false |}.
Proof.
  refine (proj2 (startTime_before_live
    {| clock := 4000012;
       live := [ {| label_ := "x"; enterTime_ := 4000012; isTemporary_ := true |};
                 {| label_ := "x"; enterTime_ := 8; isTemporary_ := false |} ];
       counts := {[ "x" := {| numThreads := 2; numEnters := 3; totalMs := 4;
                              maxMs := 4; startTime := 5 |} ]} |} _)
    {| label_ := "x"; enterTime_ := 8; isTemporary_ := false |}
    {| numThreads := 2; numEnters := 3; totalMs := 4; maxMs := 4;
       startTime := 5 |} _ _).
  - exists 0, [Construct "x" false 5; Construct "x" false 3; Destruct 1 4000000;
               Construct "x" true 4].
    split; [vm_compute; discriminate|]. vm_compute. reflexivity.
  - right. left.
  - vm_compute. reflexivity.
Defined.

Lemma activeCount_filter L cs :
  activeCount L cs = Z.of_nat (length (filter (fun c => label_ c = L) cs)).
Proof. reflexivity. Qed.

Lemma outermost_cons L c cs :
  outermost L (c :: cs) =
  if decide (label_ c = L)
  then (if activeCount L cs =? 0 then Some c else outermost L cs)
  else outermost L cs.
Proof.
  unfold outermost. rewrite filter_cons, activeCount_filter.
  case_decide; [|done].
  destruct (filter (fun c0 => label_ c0 = L) cs) as [|c' l] eqn:E; [done|].
  rewrite last_cons. simpl.
  destruct (last (c' :: l)) eqn:El; [done|].
  by apply last_None in El.
Qed.

(** X5. When contexts are destroyed as scopes are (the one constructed last
    first), [startTime] of a label with live contexts is the [enterTime_] of
    the outermost of them: of the activation that took the label from idle
    to active. *)
Theorem startTime_of_outermost (t0 : Clock.time_point) (ops : list Op)
    (th : Thread) (L : string) (c : TraceContext) :
  Z.of_nat (length ops) <= Int.INT32_MAX ->
  run ops (newThread t0) = Some th ->
  nested ops ->
  outermost L (live th) = Some c ->
  exists d, counts th !! L = Some d /\ startTime d = enterTime_ c.
Proof.
  intros Hlen Hrun Hnest. revert L c. revert Hnest. revert ops th Hlen Hrun.
  apply (run_induction t0 (fun done th =>
    nested done -> forall L c, outermost L (live th) = Some c ->
    exists d, counts th !! L = Some d /\ startTime d = enterTime_ c)).
  - intros _ L c Hc. done.
  - intros done op th th' HI Hn IHQ Hstep Hnest L c Hout.
    apply Forall_app in Hnest as [Hnest Hop].
    apply Forall_cons in Hop as [Hop _]. specialize (IHQ Hnest).
    destruct op as [label isTemporary dt|i dt].
    + rewrite step_Construct in Hstep. apply (inj Some) in Hstep. subst th'.
      cbn [counts live] in *. rewrite outermost_cons, ctor_self in Hout.
      cbn [label_] in Hout.
      destruct (decide (label = L)) as [->|E].
      * destruct (ctor_startTime t0 _ th L isTemporary
                    (clock th + Z.of_N dt) HI ltac:(lia)) as (d' & Hd' & Hst).
        exists d'. split; [done|]. rewrite Hst.
        destruct (activeCount L (live th) =? 0).
        -- by injection Hout as <-.
        -- destruct (IHQ L c Hout) as (d & Hd & <-). by rewrite Hd.
      * rewrite ctor_other by done. by apply IHQ.
    + subst i. simpl in Hstep.
      destruct (live th) as [|self rest] eqn:Hlive; [done|]. simpl in Hstep.
      destruct (dtor self _ (counts th)) as [counts'|] eqn:Hd; [|done].
      simpl in Hstep. injection Hstep as <-. cbn [counts live] in *.
      specialize (IHQ L c). rewrite outermost_cons in IHQ.
      destruct (decide (label_ self = L)) as [<-|E].
      * assert (1 <= activeCount (label_ self) rest) as Hrest.
        { unfold outermost in Hout. rewrite activeCount_filter.
          destruct (filter _ rest); [done|]. simpl. lia. }
        destruct (Z.eqb_spec (activeCount (label_ self) rest) 0); [lia|].
        destruct (IHQ Hout) as (d & Hd0 & Hst).
        pose proof (inv_active _ _ _ HI (label_ self)) as Ha.
        rewrite Hlive, activeCount_cons, decide_True, Hd0 in Ha by done.
        simpl in Ha.
        pose proof (inv_enters _ _ _ HI _ d Hd0) as He.
        rewrite (dtor_unfold _ _ _ _ Hd0) in Hd
          by (unfold Int.is_int32, Int.INT32_MAX in *; lia).
        destruct (Z.eqb_spec (numThreads d - 1) 0); [lia|]. simpl in Hd.
        injection Hd as <-. rewrite lookup_insert_eq. eauto.
      * rewrite (dtor_other _ _ _ _ L Hd) by done. by apply IHQ.
Qed.

Lemma startTime_of_outermost_witness :
  exists d,
    ({[ "x" := {| numThreads := 2; numEnters := 3; totalMs := 4; maxMs := 4;
                  startTime := 5 |} ]} : Counts) !! "x" = Some d /\
    startTime d = 5.
Proof.
  refine (startTime_of_outermost 0
    [Construct "x" false 5; Construct "x" false 3; Destruct 0 4000000;
     Construct "x" true 4]
    {| clock := 4000012;
       live := [ {| label_ := "x"; enterTime_ := 4000012; isTemporary_ := true |};
                 {| label_ := "x"; enterTime_ := 5; isTemporary_ := false |} ];
       counts := {[ "x" := {| numThreads := 2; numEnters := 3; totalMs := 4;
                              maxMs := 4; startTime := 5 |} ]} |}
    "x" {| label_ := "x"; enterTime_ := 5; isTemporary_ := false |} _ _ _ _).
  - vm_compute. discriminate.
  - vm_compute. reflexivity.
  - repeat constructor.
  - vm_compute. reflexivity.
Defined.

(** ** The labels and the order of the aggregation *)

(** X6. [status()] has an entry for a label exactly when some live
    per-thread map has one, whatever the entry holds: a label that is idle
    on every thread is still part of the snapshot. *)
Theorem status_labels (registry : list Counts) (L : string) :
  is_Some (status registry !! L) <->
  exists m : Counts, m ∈ registry /\ is_Some (m !! L).
Proof.
  rewrite status_lookup. split.
  - intros Hs. destruct (entriesOf L registry) as [|d ds] eqn:E.
    + by destruct Hs.
    + assert (d ∈ entriesOf L registry) as Hd by (rewrite E; by left).
      apply list_elem_of_omap in Hd as (m & Hm & Hd). eauto.
  - intros (m & Hm & [d Hd]).
    assert (d ∈ entriesOf L registry) as Hin.
    { apply list_elem_of_omap. eauto. }
    destruct (entriesOf L registry); [by apply elem_of_nil in Hin|eauto].
Qed.

Lemma status_labels_witness :
  is_Some (status [ ∅; {[ "idle" := {| numThreads := 0; numEnters := 1;
                                       totalMs := 0; maxMs := 0;
                                       startTime := 9 |} ]} ] !! "idle").
Proof.
  apply status_labels.
  exists {[ "idle" := {| numThreads := 0; numEnters := 1; totalMs := 0;
                         maxMs := 0; startTime := 9 |} ]}.
  split; [right; left|]. vm_compute. eauto.
Defined.

Lemma sumOf_Permutation f ds1 ds2 : ds1 ≡ₚ ds2 -> sumOf f ds1 = sumOf f ds2.
Proof.
  induction 1 as [|d ds1 ds2 _ IH|d1 d2 ds|ds1 ds2 ds3 _ IH1 _ IH2];
    rewrite ?sumOf_cons; lia.
Qed.

Lemma maxOf_Permutation f ds1 ds2 : ds1 ≡ₚ ds2 -> maxOf f ds1 = maxOf f ds2.
Proof.
  induction 1 as [|d ds1 ds2 _ IH|d1 d2 ds|ds1 ds2 ds3 _ IH1 _ IH2];
    rewrite ?maxOf_cons; lia.
Qed.

Lemma TraceData_eq (d1 d2 : TraceData) :
  numThreads d1 = numThreads d2 -> numEnters d1 = numEnters d2 ->
  totalMs d1 = totalMs d2 -> maxMs d1 = maxMs d2 ->
  startTime d1 = startTime d2 -> d1 = d2.
Proof. destruct d1, d2; simpl; congruence. Qed.

(** X7. The entry of [status()] for a label does not depend on the order in
    which the per-thread maps are visited, when every per-thread entry of
    the label has been entered (as the entries of running threads have)
    and the enters sum to a value of the counter's type. *)
Theorem status_order (registry1 registry2 : list Counts) (L : string) :
  registry1 ≡ₚ registry2 ->
  Forall (fun d => 1 <= numEnters d) (entriesOf L registry1) ->
  sumOf numEnters (entriesOf L registry1) <= Int.INT32_MAX ->
  status registry1 !! L = status registry2 !! L.
Proof.
  intros Hperm Hall Hsum.
  assert (entriesOf L registry1 ≡ₚ entriesOf L registry2) as Hp.
  { unfold entriesOf. by rewrite Hperm. }
  assert (entriesOf L registry1 = [] \/ entriesOf L registry1 <> []) as [E1|Hne1]
    by (destruct (entriesOf L registry1); [by left|by right]).
  { rewrite E1 in Hp. apply Permutation_nil in Hp.
    rewrite !status_lookup. rewrite Hp. rewrite E1. done. }
  assert (entriesOf L registry2 <> []) as Hne2.
  { intros E. rewrite E in Hp. by apply Permutation_nil_r in Hp. }
  assert (Forall (fun d => 1 <= numEnters d) (entriesOf L registry2)) as Hall2
    by (by rewrite <- Hp).
  assert (sumOf numEnters (entriesOf L registry2) <= Int.INT32_MAX) as Hsum2
    by (by rewrite <- (sumOf_Permutation _ _ _ Hp)).
  pose proof (entered_all _ Hall) as He1.
  pose proof (entered_all _ Hall2) as He2.
  destruct (aggregate_start_min registry1 L) as (d1 & Hd1 & (e1 & Hin1 & Hs1) & Hlow1).
  { eapply Forall_impl; [exact Hall|]. intros e; simpl; lia. }
  { done. }
  { by rewrite He1. }
  destruct (aggregate_start_min registry2 L) as (d2 & Hd2 & (e2 & Hin2 & Hs2) & Hlow2).
  { eapply Forall_impl; [exact Hall2|]. intros e; simpl; lia. }
  { done. }
  { by rewrite He2. }
  cbv zeta in *. rewrite He1 in *. rewrite He2 in *.
  rewrite Hd1, Hd2. f_equal.
  rewrite status_lookup in Hd1, Hd2.
  assert (d1 = foldl mergeData newTraceData (entriesOf L registry1)) as Hf1
    by (destruct (entriesOf L registry1); congruence).
  assert (d2 = foldl mergeData newTraceData (entriesOf L registry2)) as Hf2
    by (destruct (entriesOf L registry2); congruence).
  destruct (foldl_mergeData_sums (entriesOf L registry1) newTraceData wfAcc_new)
    as (A1 & A2 & A3 & A4).
  destruct (foldl_mergeData_sums (entriesOf L registry2) newTraceData wfAcc_new)
    as (B1 & B2 & B3 & B4).
  cbv zeta in *. rewrite <- Hf1 in A1, A2, A3, A4.
  rewrite <- Hf2 in B1, B2, B3, B4.
  apply TraceData_eq.
  - by rewrite A1, B1, (sumOf_Permutation _ _ _ Hp).
  - by rewrite A2, B2, (sumOf_Permutation _ _ _ Hp).
  - by rewrite A3, B3, (sumOf_Permutation _ _ _ Hp).
  - by rewrite A4, B4, (maxOf_Permutation _ _ _ Hp).
  - rewrite Forall_forall in Hlow1, Hlow2.
    rewrite Hp in Hin1. rewrite <- Hp in Hin2.
    pose proof (Hlow1 e2 Hin2). pose proof (Hlow2 e1 Hin1). lia.
Qed.

Lemma status_order_witness :
  status [ {[ "L" := {| numThreads := 1; numEnters := 3; totalMs := 20;
                        maxMs := 9; startTime := 8 |} ]};
           {[ "L" := {| numThreads := 0; numEnters := 4; totalMs := 11;
                        maxMs := 6; startTime := 5 |} ]} ] !! "L" =
  status [ {[ "L" := {| numThreads := 0; numEnters := 4; totalMs := 11;
                        maxMs := 6; startTime := 5 |} ]};
           {[ "L" := {| numThreads := 1; numEnters := 3; totalMs := 20;
                        maxMs := 9; startTime := 8 |} ]} ] !! "L".
Proof.
  apply status_order.
  - apply perm_swap.
  - vm_compute. repeat constructor; discriminate.
  - vm_compute. discriminate.
Defined.

(** ** When the report is undefined, and when it is empty *)

Lemma statusLine_fold_None now (l : list (string * TraceData)) :
  foldl (fun out pair => out ≫= fun o => statusLineEntry now o pair) None l
  = None.
Proof. induction l as [|kv l IH]; [done|]. simpl. exact IH. Qed.

Lemma statusLineEntry_None now out kv :
  statusLineEntry now out kv = None <->
  numThreads kv.2 <> 0 /\ Int.uint64 (numEnters kv.2) = 0.
Proof.
  unfold statusLineEntry.
  destruct (Z.eqb_spec (numThreads kv.2) 0);
    [|destruct (Z.eqb_spec (Int.uint64 (numEnters kv.2)) 0)];
    split; try done; try tauto; intros [? ?]; done.
Qed.

Lemma statusLine_fold_undefined now (l : list (string * TraceData)) out :
  foldl (fun out pair => out ≫= fun o => statusLineEntry now o pair)
        (Some out) l = None <->
  Exists (fun kv => numThreads kv.2 <> 0 /\ Int.uint64 (numEnters kv.2) = 0) l.
Proof.
  revert out. induction l as [|kv l IH]; intros out.
  - simpl. split; [done|]. intros H. by apply Exists_nil in H.
  - cbn [foldl].
    replace (Some out ≫= fun o => statusLineEntry now o kv)
      with (statusLineEntry now out kv) by reflexivity.
    rewrite Exists_cons, <- (statusLineEntry_None now out kv).
    destruct (statusLineEntry now out kv) as [out'|] eqn:E.
    + rewrite IH. split; [by right|]. by intros [?|?].
    + rewrite statusLine_fold_None. split; [by left|done].
Qed.

(** X8. [statusLine()] divides by zero, which is undefined, exactly when
    the snapshot has an entry with [numThreads] not 0 whose [numEnters],
    as a [uint64_t], is 0; in every other case it returns its text. *)
Theorem statusLine_undefined_iff (now : Clock.time_point)
    (registry : list Counts) :
  statusLine now registry = None <->
  exists L d, status registry !! L = Some d /\
              numThreads d <> 0 /\ Int.uint64 (numEnters d) = 0.
Proof.
  unfold statusLine. rewrite statusLine_fold_undefined, Exists_exists. split.
  - intros ([L d] & Hin%elem_of_map_to_list & H). exists L, d. done.
  - intros (L & d & Hd & H). exists (L, d).
    split; [by apply elem_of_map_to_list|done].
Qed.

Lemma statusLine_fold_idle now (l : list (string * TraceData)) out :
  Forall (fun kv => numThreads kv.2 = 0) l ->
  foldl (fun out pair => out ≫= fun o => statusLineEntry now o pair)
        (Some out) l = Some out.
Proof.
  induction 1 as [|kv l Hkv _ IH]; [done|]. cbn [foldl].
  replace (Some out ≫= fun o => statusLineEntry now o kv)
    with (statusLineEntry now out kv) by reflexivity.
  unfold statusLineEntry. rewrite Hkv. exact IH.
Qed.

Lemma sumOf_zero f ds : Forall (fun d => f d = 0) ds -> sumOf f ds = 0.
Proof. induction 1; [done|]. rewrite sumOf_cons. lia. Qed.

(** X9. When no [TraceContext] is alive on any thread, [statusLine()]
    returns the empty text, whatever labels the threads' maps still hold
    from completed activations. *)
Theorem statusLine_idle (now : Clock.time_point) (ths : list Thread) :
  Forall running ths ->
  Forall (fun th => live th = []) ths ->
  statusLine now (counts <$> ths) = Some EmptyString.
Proof.
  intros Hrun Hidle. unfold statusLine. apply statusLine_fold_idle.
  apply Forall_forall. intros [L d] Hin%elem_of_map_to_list. simpl.
  rewrite status_lookup in Hin.
  destruct (foldl_mergeData_sums (entriesOf L (counts <$> ths)) newTraceData
              wfAcc_new) as (E1 & _). cbv zeta in E1.
  assert (d = foldl mergeData newTraceData (entriesOf L (counts <$> ths))) as ->
    by (destruct (entriesOf L (counts <$> ths)); congruence).
  rewrite E1, sumOf_zero; [done|].
  apply Forall_forall. intros e He.
  apply list_elem_of_omap in He as (m & Hm & He).
  apply list_elem_of_fmap in Hm as (th & -> & Hth).
  rewrite Forall_forall in Hrun, Hidle.
  destruct (running_Inv th (Hrun th Hth)) as (t0 & n & _ & HI).
  pose proof (inv_active _ _ _ HI L) as Ha.
  rewrite He, (Hidle th Hth) in Ha. exact Ha.
Qed.

Lemma statusLine_idle_witness :
  statusLine 99
    (counts <$>
      [ {| clock := 12000000; live := [];
           counts := {[ "x" := {| numThreads := 0; numEnters := 2; totalMs := 15;
                                  maxMs := 12; startTime := 0 |} ]} |};
        newThread 4 ]) = Some EmptyString.
Proof.
  apply (statusLine_idle 99
    [ {| clock := 12000000; live := [];
         counts := {[ "x" := {| numThreads := 0; numEnters := 2; totalMs := 15;
                                maxMs := 12; startTime := 0 |} ]} |};
      newThread 4 ]).
  - repeat constructor.
    + exists 0, [Construct "x" false 0; Construct "x" false 0;
                 Destruct 0 3000000; Destruct 0 9000000].
      split; [vm_compute; discriminate|]. vm_compute. reflexivity.
    + exists 4, []. split; [vm_compute; discriminate|]. reflexivity.
  - repeat constructor.
Defined.

(** An entry as the constructor leaves it between [++data.numThreads] and
    [++data.numEnters] of the first construction of a label: for such a
    snapshot the quotient of the report is a division by zero. *)
Lemma statusLine_undefined_iff_witness :
  statusLine 50 [ {[ "x" := {| numThreads := 1; numEnters := 0; totalMs := 0;
                               maxMs := 0; startTime := 40 |} ]} ] = None.
Proof.
  apply statusLine_undefined_iff.
  exists "x", {| numThreads := 1; numEnters := 0; totalMs := 0; maxMs := 0;
                 startTime := 40 |}.
  split; [vm_compute; reflexivity|]. split; [discriminate|reflexivity].
Defined.

(** ** The aggregate and the live contexts *)

Lemma liveTotal_cons L th ths :
  liveTotal L (th :: ths) = activeCount L (live th) + liveTotal L ths.
Proof. reflexivity. Qed.

Lemma liveTotal_nonneg L ths : 0 <= liveTotal L ths.
Proof.
  induction ths as [|th ths IH]; [done|]. rewrite liveTotal_cons.
  pose proof (activeCount_nonneg L (live th)). lia.
Qed.

Lemma sumOf_numThreads_live L ths :
  Forall running ths ->
  sumOf numThreads (entriesOf L (counts <$> ths)) = liveTotal L ths.
Proof.
  induction 1 as [|th ths Hth _ IH]; [done|].
  rewrite liveTotal_cons, <- IH.
  destruct (running_Inv th Hth) as (t0 & n & _ & HI).
  pose proof (inv_active _ _ _ HI L) as Ha.
  unfold entriesOf. rewrite fmap_cons. cbn [omap list_omap].
  fold (omap (fun counts : Counts => counts !! L) (counts <$> ths)).
  destruct (counts th !! L) as [d|]; simpl in Ha.
  - rewrite sumOf_cons. lia.
  - lia.
Qed.

Lemma activeCount_pos_elem L cs :
  0 < activeCount L cs <-> exists c, c ∈ cs /\ label_ c = L.
Proof.
  split.
  - unfold activeCount. intros Hpos.
    destruct (filter (fun c => label_ c = L) cs) as [|c l] eqn:E;
      [simpl in Hpos; lia|].
    assert (c ∈ filter (fun c => label_ c = L) cs) as Hc
      by (rewrite E; by left).
    apply list_elem_of_filter in Hc as [? ?]. eauto.
  - intros (c & Hc & HL). pose proof (activeCount_elem L cs c Hc HL). lia.
Qed.

Lemma liveTotal_pos L ths :
  0 < liveTotal L ths <->
  exists th c, th ∈ ths /\ c ∈ live th /\ label_ c = L.
Proof.
  induction ths as [|th ths IH].
  - split; [unfold liveTotal; simpl; lia|].
    intros (th & c & Hth & _). by apply elem_of_nil in Hth.
  - rewrite liveTotal_cons.
    pose proof (activeCount_nonneg L (live th)).
    pose proof (liveTotal_nonneg L ths). split.
    + intros Hpos.
      destruct (decide (0 < activeCount L (live th))) as [Ha|Ha].
      * apply activeCount_pos_elem in Ha as (c & Hc & HL).
        exists th, c. split; [by left|done].
      * destruct (proj1 IH ltac:(lia)) as (th' & c & Hth' & Hc).
        exists th', c. split; [by right|done].
    + intros (th' & c & [->|Hth']%elem_of_cons & Hc & HL).
      * pose proof (activeCount_elem L _ c Hc HL). lia.
      * assert (0 < liveTotal L ths); [|lia].
        apply IH. eauto.
Qed.

(** X10. For threads between two of their operations, the aggregated
    [numThreads] of a label (0 for a label without entry) is the number of
    [TraceContext] objects of the label alive on all the threads; so the
    guard of [statusLine()], [numThreads] not 0, holds for a label exactly
    when a context of the label is alive on some thread. The enters of the
    label sum to a value of the counter's type. *)
Theorem status_counts_live (ths : list Thread) (L : string) :
  Forall running ths ->
  sumOf numEnters (entriesOf L (counts <$> ths)) <= Int.INT32_MAX ->
  let d := default newTraceData (status (counts <$> ths) !! L) in
  numThreads d = liveTotal L ths /\
  (numThreads d <> 0 <->
   exists th c, th ∈ ths /\ c ∈ live th /\ label_ c = L).
Proof.
  intros Hrun Hsum d.
  assert (numThreads d = liveTotal L ths) as Hd.
  { subst d. rewrite <- (sumOf_numThreads_live L ths Hrun).
    destruct (status (counts <$> ths) !! L) as [e|] eqn:E; simpl.
    - assert (Forall reachable (counts <$> ths)) as Hreach.
      { apply Forall_fmap. eapply Forall_impl; [exact Hrun|].
        intros th. apply running_reachable. }
      pose proof (entriesOf_reachable _ L Hreach) as Hent.
      rewrite status_lookup in E.
      set (entries := entriesOf L (counts <$> ths)) in *.
      assert (e = foldl mergeData newTraceData entries) as ->
        by (destruct entries; congruence).
      destruct (foldl_mergeData_sums entries newTraceData wfAcc_new)
        as (E1 & _). cbv zeta in E1. rewrite E1. simpl.
      assert (sumOf numThreads entries <= sumOf numEnters entries).
      { apply sumOf_le. eapply Forall_impl; [exact Hent|]. intros x; simpl; lia. }
      assert (0 <= sumOf numThreads entries).
      { apply sumOf_nonneg. eapply Forall_impl; [exact Hent|]. intros x; simpl; lia. }
      apply int32_id. unfold Int.is_int32, Int.INT32_MAX in *. lia.
    - rewrite status_lookup in E.
      destruct (entriesOf L (counts <$> ths)); [done|done]. }
  split; [done|]. rewrite Hd, <- liveTotal_pos.
  pose proof (liveTotal_nonneg L ths). lia.
Qed.

Lemma status_counts_live_witness :
  numThreads (default newTraceData
    (status (counts <$>
      [ {| clock := 5; live := [ {| label_ := "x"; enterTime_ := 5;
                                    isTemporary_ := false |} ];
           counts := {[ "x" := {| numThreads := 1; numEnters := 1; totalMs := 0;
                                  maxMs := 0; startTime := 5 |} ]} |};
        {| clock := 9; live := [ {| label_ := "x"; enterTime_ := 9;
                                    isTemporary_ := true |} ];
           counts := {[ "x" := {| numThreads := 1; numEnters := 1; totalMs := 0;
                                  maxMs := 0; startTime := 9 |} ]} |} ]) !! "x"))
  = 2.
Proof.
  refine (proj1 (status_counts_live
      [ {| clock := 5; live := [ {| label_ := "x"; enterTime_ := 5;
                                    isTemporary_ := false |} ];
           counts := {[ "x" := {| numThreads := 1; numEnters := 1; totalMs := 0;
                                  maxMs := 0; startTime := 5 |} ]} |};
        {| clock := 9; live := [ {| label_ := "x"; enterTime_ := 9;
                                    isTemporary_ := true |} ];
           counts := {[ "x" := {| numThreads := 1; numEnters := 1; totalMs := 0;
                                  maxMs := 0; startTime := 9 |} ]} |} ] "x" _ _)).
  - repeat constructor.
    + exists 0, [Construct "x" false 5].
      split; [vm_compute; discriminate|]. vm_compute. reflexivity.
    + exists 2, [Construct "x" true 7].
      split; [vm_compute; discriminate|]. vm_compute. reflexivity.
  - vm_compute. discriminate.
Defined.

(** ** When an entry is erased *)

(** X11. On a thread between two of its operations the destruction of a
    live context is defined (the entry of its label is there), and it
    erases the entry exactly when the context is temporary and is the only
    live context of its label: a temporary context nested in another
    activation of the label erases nothing. *)
Theorem erase_iff_last_temporary (th : Thread) (i : nat) (dt : N)
    (self : TraceContext) :
  running th ->
  live th !! i = Some self ->
  exists th', step (Destruct i dt) th = Some th' /\
    (counts th' !! label_ self = None <->
     isTemporary_ self = true /\ activeCount (label_ self) (live th) = 1).
Proof.
  intros (t0 & n & Hn & HI)%running_Inv Hi.
  assert (self ∈ live th) as Hin by (by eapply list_elem_of_lookup_2).
  destruct (Inv_present _ _ _ _ HI Hin) as (d & Hd & Hd1).
  pose proof (inv_enters _ _ _ HI _ d Hd) as He.
  pose proof (inv_active _ _ _ HI (label_ self)) as Ha.
  rewrite Hd in Ha; simpl in Ha.
  unfold step. rewrite Hi. cbn [mbind option_bind].
  rewrite (dtor_unfold _ _ _ _ Hd)
    by (unfold Int.is_int32, Int.INT32_MAX in *; lia).
  cbn [mbind option_bind]. eexists; split; [reflexivity|]. cbn [counts].
  rewrite <- Ha.
  destruct (Z.eqb_spec (numThreads d - 1) 0) as [E|E];
    destruct (isTemporary_ self); simpl.
  - rewrite lookup_delete_eq. split; [intros _; split; [done|lia]|done].
  - rewrite lookup_insert_eq. split; [done|]. by intros [? _].
  - rewrite lookup_insert_eq. split; [done|]. intros [_ ?]. lia.
  - rewrite lookup_insert_eq. split; [done|]. by intros [? _].
Qed.

Lemma erase_iff_last_temporary_witness :
  exists th',
    step (Destruct 0 7)
      {| clock := 8;
         live := [ {| label_ := "x"; enterTime_ := 8; isTemporary_ := true |};
                   {| label_ := "x"; enterTime_ := 5; isTemporary_ := false |} ];
         counts := {[ "x" := {| numThreads := 2; numEnters := 2; totalMs := 0;
                                maxMs := 0; startTime := 5 |} ]} |} = Some th' /\
    (counts th' !! "x" = None <->
     true = true /\
     activeCount "x"
       [ {| label_ := "x"; enterTime_ := 8; isTemporary_ := true |};
         {| label_ := "x"; enterTime_ := 5; isTemporary_ := false |} ] = 1).
Proof.
  refine (erase_iff_last_temporary
    {| clock := 8;
       live := [ {| label_ := "x"; enterTime_ := 8; isTemporary_ := true |};
                 {| label_ := "x"; enterTime_ := 5; isTemporary_ := false |} ];
       counts := {[ "x" := {| numThreads := 2; numEnters := 2; totalMs := 0;
                              maxMs := 0; startTime := 5 |} ]} |}
    0 7 {| label_ := "x"; enterTime_ := 8; isTemporary_ := true |} _ _).
  - exists 0, [Construct "x" false 5; Construct "x" true 3].
    split; [vm_compute; discriminate|]. vm_compute. reflexivity.
  - reflexivity.
Defined.

(** ** The average and the maximum *)

Lemma reachable_average (m : Counts) L d :
  reachable m -> m !! L = Some d ->
  0 <= maxMs d /\ totalMs d <= (numEnters d - numThreads d) * maxMs d.
Proof.
  intros (t0 & ops & th & Hlen & Hrun & <-). revert L d.
  revert ops th Hlen Hrun.
  apply (run_induction t0 (fun _ th => forall L d, counts th !! L = Some d ->
    0 <= maxMs d /\ totalMs d <= (numEnters d - numThreads d) * maxMs d)).
  - intros L d Hd. done.
  - intros done op th th' HI Hn IHQ Hstep L d Hd.
    destruct op as [label isTemporary dt|i dt].
    + rewrite step_Construct in Hstep. apply (inj Some) in Hstep. subst th'.
      cbn [counts] in Hd.
      destruct (decide (L = label)) as [->|E];
        [|rewrite ctor_other in Hd by done; by apply (IHQ L)].
      destruct (Inv_default t0 _ th label HI ltac:(lia)) as (_ & ? & ? & _).
      rewrite (ctor_lookup label isTemporary _ _ _ eq_refl) in Hd;
        [|unfold Int.is_int32, Int.INT32_MAX in *; lia..].
      injection Hd as <-. simpl.
      destruct (counts th !! label) as [d0|] eqn:E0; simpl.
      * destruct (IHQ label d0 E0). split; [done|]. lia.
      * lia.
    + simpl in Hstep.
      destruct (live th !! i) as [self|] eqn:Hi; [|done]. simpl in Hstep.
      destruct (dtor self _ (counts th)) as [counts'|] eqn:Hdt; [|done].
      simpl in Hstep. injection Hstep as <-. cbn [counts] in Hd.
      destruct (decide (L = label_ self)) as [->|E];
        [|rewrite (dtor_other _ _ _ _ L Hdt) in Hd by done; by apply (IHQ L)].
      assert (self ∈ live th) as Hin by (by eapply list_elem_of_lookup_2).
      destruct (Inv_present _ _ _ _ HI Hin) as (e & He & He1).
      pose proof (inv_enters _ _ _ HI _ e He) as Hen.
      pose proof (inv_total _ _ _ HI _ e He) as (Htot & _).
      pose proof (inv_live _ _ _ HI self Hin) as Hlive.
      destruct (IHQ _ e He) as (Hmax & Havg).
      rewrite (dtor_unfold _ _ _ _ He) in Hdt
        by (unfold Int.is_int32, Int.INT32_MAX in *; lia).
      apply (inj Some) in Hdt. subst counts'.
      destruct ((numThreads e - 1 =? 0) && isTemporary_ self);
        [by rewrite lookup_delete_eq in Hd|].
      rewrite lookup_insert_eq in Hd. injection Hd as <-. simpl.
      set (ms := Clock.millis (clock th + Z.of_N dt - enterTime_ self)).
      assert (0 <= ms) as Hms by (apply millis_nonneg; lia).
      pose proof (uint64_range ms) as Hu. unfold Int.is_uint64 in Hu.
      assert (Int.uint64 (totalMs e + ms) <= totalMs e + Int.uint64 ms) as Hle.
      { unfold Int.uint64. rewrite <- Zplus_mod_idemp_r.
        apply Z.mod_le; [|lia]. fold (Int.uint64 ms). lia. }
      split; [lia|]. nia.
Qed.

Lemma sumOf_total_bound ds :
  Forall (fun e => 0 <= numThreads e <= numEnters e /\ 0 <= maxMs e /\
                   totalMs e <= (numEnters e - numThreads e) * maxMs e) ds ->
  sumOf totalMs ds <= sumOf numEnters ds * maxOf maxMs ds /\
  0 <= sumOf numEnters ds.
Proof.
  induction 1 as [|e ds (Hn & Hm & Ht) _ [IH1 IH2]].
  - unfold sumOf, maxOf; simpl. lia.
  - rewrite !sumOf_cons, maxOf_cons.
    pose proof (maxOf_nonneg maxMs ds). split; [|lia].
    assert (totalMs e <= numEnters e * Z.max (maxMs e) (maxOf maxMs ds)) by nia.
    assert (sumOf totalMs ds
            <= sumOf numEnters ds * Z.max (maxMs e) (maxOf maxMs ds)) by nia.
    lia.
Qed.

(** X12. In the snapshot of running threads the average never exceeds the
    maximum: for every label, [totalMs <= numEnters * maxMs], so the
    "avg ms" of a line of the report is at most its "max ms". The enters of
    the label sum to a value of the counter's type. *)
Theorem average_le_max (registry : list Counts) (L : string) (d : TraceData) :
  Forall reachable registry ->
  sumOf numEnters (entriesOf L registry) <= Int.INT32_MAX ->
  status registry !! L = Some d ->
  totalMs d <= numEnters d * maxMs d /\
  totalMs d / Int.uint64 (numEnters d) <= maxMs d.
Proof.
  intros Hall Hsum Hd.
  destruct (status_entry_counters registry L d Hall Hsum Hd) as (Ht & He).
  assert (Int.uint64 (numEnters d) = numEnters d) as ->.
  { apply uint64_id. unfold Int.is_uint64, Int.UINT64_MAX, Int.INT32_MAX in *. lia. }
  assert (totalMs d <= numEnters d * maxMs d) as Hle.
  { pose proof (entriesOf_reachable registry L Hall) as Hent.
    assert (Forall (fun e => 0 <= numThreads e <= numEnters e /\ 0 <= maxMs e /\
                     totalMs e <= (numEnters e - numThreads e) * maxMs e)
                   (entriesOf L registry)) as Havg.
    { apply Forall_forall. intros e Hin.
      rewrite Forall_forall in Hent. destruct (Hent e Hin) as (? & _).
      apply list_elem_of_omap in Hin as (m & Hm & Hin).
      rewrite Forall_forall in Hall.
      destruct (reachable_average m L e (Hall m Hm) Hin). done. }
    rewrite status_lookup in Hd.
    set (entries := entriesOf L registry) in *.
    assert (d = foldl mergeData newTraceData entries) as Hf
      by (destruct entries; congruence).
    destruct (foldl_mergeData_sums entries newTraceData wfAcc_new)
      as (_ & E2 & E3 & E4). cbv zeta in E2, E3, E4.
    rewrite <- Hf in E2, E3, E4. simpl in E2, E3, E4.
    destruct (sumOf_total_bound entries Havg) as (Hb & Hnn).
    rewrite int32_id in E2
      by (rewrite Z.add_0_l; unfold Int.is_int32, Int.INT32_MAX in *; lia).
    pose proof (maxOf_nonneg maxMs entries).
    assert (0 <= sumOf totalMs entries).
    { apply sumOf_nonneg. eapply Forall_impl; [exact Hent|].
      intros e (_ & _ & Hu & _). unfold Int.is_uint64 in Hu. lia. }
    pose proof (uint64_le (sumOf totalMs entries) ltac:(lia)).
    rewrite E2, E3, E4, !Z.add_0_l. rewrite Z.max_r by lia. lia. }
  split; [done|].
  apply Z.div_le_upper_bound; lia.
Qed.

Lemma average_le_max_witness :
  15 / Int.uint64 2 <= 12.
Proof.
  refine (proj2 (average_le_max
    [ {[ "x" := {| numThreads := 0; numEnters := 2; totalMs := 15; maxMs := 12;
                   startTime := 0 |} ]} ] "x"
    {| numThreads := 0; numEnters := 2; totalMs := 15; maxMs := 12;
       startTime := 0 |} _ _ _)).
  - repeat constructor.
    exists 0, [Construct "x" false 0; Construct "x" false 0;
               Destruct 0 3000000; Destruct 0 9000000].
    eexists. split; [vm_compute; discriminate|].
    split; vm_compute; reflexivity.
  - vm_compute. discriminate.
  - vm_compute. reflexivity.
Defined.

(** ** The time a label has been active *)

(** X13. For threads between two of their operations whose clock readings
    are not after [now], the aggregated [startTime] of a label is not after
    [now]: the "continuous for" time that [statusLine()] prints is never
    negative. The enters of the label sum to a value of the counter's
    type. *)
Theorem continued_nonneg (ths : list Thread) (L : string) (d : TraceData)
    (now : Clock.time_point) :
  Forall running ths ->
  Forall (fun th => clock th <= now) ths ->
  sumOf numEnters (entriesOf L (counts <$> ths)) <= Int.INT32_MAX ->
  status (counts <$> ths) !! L = Some d ->
  startTime d <= now /\ 0 <= Clock.millis (now - startTime d).
Proof.
  intros Hrun Hclk Hsum Hd.
  assert (startTime d <= now) as Hle.
  { assert (Forall reachable (counts <$> ths)) as Hreach.
    { apply Forall_fmap. eapply Forall_impl; [exact Hrun|].
      intros th. apply running_reachable. }
    destruct (aggregate_start_running (counts <$> ths) L Hreach Hsum)
      as (_ & d' & Hd' & (e & He & Hst) & _).
    { rewrite status_lookup in Hd.
      by destruct (entriesOf L (counts <$> ths)). }
    rewrite Hd in Hd'. injection Hd' as <-. rewrite Hst.
    apply list_elem_of_omap in He as (m & Hm & He).
    apply list_elem_of_fmap in Hm as (th & -> & Hth).
    rewrite Forall_forall in Hrun, Hclk.
    pose proof (proj1 (running_startTime_bounds th (Hrun th Hth)) L e He).
    pose proof (Hclk th Hth). lia. }
  split; [done|]. apply millis_nonneg. lia.
Qed.

Lemma continued_nonneg_witness :
  0 <= Clock.millis (22000000 - 5).
Proof.
  refine (proj2 (continued_nonneg
    [ {| clock := 105;
         live := [ {| label_ := "x"; enterTime_ := 105; isTemporary_ := false |} ];
         counts := {[ "x" := {| numThreads := 1; numEnters := 1; totalMs := 0;
                                maxMs := 0; startTime := 105 |} ]} |};
      {| clock := 3000005; live := [];
         counts := {[ "x" := {| numThreads := 0; numEnters := 1; totalMs := 3;
                                maxMs := 3; startTime := 5 |} ]} |} ] "x"
    {| numThreads := 1; numEnters := 2; totalMs := 3; maxMs := 3;
       startTime := 5 |} 22000000 _ _ _ _)).
  - repeat constructor.
    + exists 100, [Construct "x" false 5].
      split; [vm_compute; discriminate|]. vm_compute. reflexivity.
    + exists 0, [Construct "x" false 5; Destruct 0 3000000].
      split; [vm_compute; discriminate|]. vm_compute. reflexivity.
  - repeat constructor; vm_compute; discriminate.
  - vm_compute. discriminate.
  - vm_compute. reflexivity.
Defined.

(** ** Labels that are only used as temporary *)

(** X14. On a thread that constructs a label as temporary only, the map
    has an entry for the label exactly while a context of the label is
    alive: no row is left behind when the label is idle. *)
Theorem temporary_label_present_iff_live (t0 : Clock.time_point)
    (ops : list Op) (th : Thread) (L : string) :
  Z.of_nat (length ops) <= Int.INT32_MAX ->
  run ops (newThread t0) = Some th ->
  allTemporary L ops ->
  (is_Some (counts th !! L) <-> exists c, c ∈ live th /\ label_ c = L).
Proof.
  intros Hlen Hrun Htmp.
  cut ((forall c, c ∈ live th -> label_ c = L -> isTemporary_ c = true) /\
       (forall d, counts th !! L = Some d -> 1 <= numThreads d)).
  { intros [_ Hpos].
    pose proof (Inv_run t0 ops 0 _ _ (Inv_new t0) ltac:(lia) ltac:(lia) Hrun)
      as HI.
    pose proof (inv_active _ _ _ HI L) as Ha.
    rewrite <- activeCount_pos_elem, <- Ha. split.
    - intros [d Hd]. rewrite Hd. simpl. specialize (Hpos d Hd). lia.
    - intros Hnt. destruct (counts th !! L); [eauto|]. simpl in Hnt. lia. }
  revert Htmp. revert ops th Hlen Hrun.
  apply (run_induction t0 (fun done th =>
    allTemporary L done ->
    (forall c, c ∈ live th -> label_ c = L -> isTemporary_ c = true) /\
    (forall d, counts th !! L = Some d -> 1 <= numThreads d))).
  - intros _. split; [|done]. intros c Hc. by apply elem_of_nil in Hc.
  - intros done op th th' HI Hn IHQ Hstep Htmp.
    apply Forall_app in Htmp as [Htmp Hop].
    apply Forall_cons in Hop as [Hop _].
    destruct (IHQ Htmp) as [Hlive Hpos].
    destruct op as [label isTemporary dt|i dt].
    + rewrite step_Construct in Hstep. apply (inj Some) in Hstep. subst th'.
      cbn [counts live]. split.
      * intros c [->|Hc]%elem_of_cons HL; [|by apply Hlive].
        rewrite ctor_self in HL |- *. simpl in *. subst label.
        by destruct isTemporary.
      * intros d Hd. destruct (decide (L = label)) as [->|E].
        -- destruct (Inv_default t0 _ th label HI ltac:(lia)) as (_ & ? & ? & _).
           rewrite (ctor_lookup label isTemporary _ _ _ eq_refl) in Hd;
             [|unfold Int.is_int32, Int.INT32_MAX in *; lia..].
           injection Hd as <-. simpl. lia.
        -- rewrite ctor_other in Hd by done. by apply Hpos.
    + simpl in Hstep.
      destruct (live th !! i) as [self|] eqn:Hi; [|done]. simpl in Hstep.
      destruct (dtor self _ (counts th)) as [counts'|] eqn:Hdt; [|done].
      simpl in Hstep. injection Hstep as <-. cbn [counts live].
      assert (self ∈ live th) as Hin by (by eapply list_elem_of_lookup_2).
      split; [intros c Hc%list_subseteq_delete; by apply Hlive|].
      intros d Hd. destruct (decide (L = label_ self)) as [->|E];
        [|rewrite (dtor_other _ _ _ _ L Hdt) in Hd by done; by apply Hpos].
      destruct (Inv_present _ _ _ _ HI Hin) as (e & He & He1).
      pose proof (inv_enters _ _ _ HI _ e He) as Hen.
      rewrite (dtor_unfold _ _ _ _ He) in Hdt
        by (unfold Int.is_int32, Int.INT32_MAX in *; lia).
      apply (inj Some) in Hdt. subst counts'.
      rewrite (Hlive self Hin eq_refl), andb_true_r in Hd.
      destruct (Z.eqb_spec (numThreads e - 1) 0).
      * by rewrite lookup_delete_eq in Hd.
      * rewrite lookup_insert_eq in Hd. injection Hd as <-. simpl. lia.
Qed.

Lemma temporary_label_present_iff_live_witness :
  is_Some (counts {| clock := 11; live := []; counts := ∅ |} !! "tmp") <->
  exists c, c ∈ live {| clock := 11; live := []; counts := ∅ |} /\
            label_ c = "tmp".
Proof.
  refine (temporary_label_present_iff_live 0
    [Construct "tmp" true 1; Construct "tmp" true 2; Destruct 1 3; Destruct 0 5]
    {| clock := 11; live := []; counts := ∅ |} "tmp" _ _ _).
  - vm_compute. discriminate.
  - vm_compute. reflexivity.
  - repeat constructor.
Defined.
